(** * Loyverse inventory monitor: change-detection pipeline

    A shallow embedding of the two variants of the monitor:

    - [Pg]: [src/index.js], which keeps the observed records in the
      PostgreSQL table [inventory_state];
    - [FileVariant]: the second source file, which keeps them in the JSON
      file [/tmp/last_inventory.json].

    Pure JavaScript code (row extraction, the detector) is embedded as
    functions on lists.  Code that talks to the browser, the database,
    the file system or the mail transport is embedded in a small
    state-and-exception monad over a [World]; what the outside world
    answers (page contents, faults) is read from an [Env]. *)

From Stdlib Require Import Ascii String NArith Sorted.
From stdpp Require Import gmap strings list.

Local Open Scope nat_scope.

(** ** JavaScript values *)

(** A JavaScript string is a sequence of UTF-16 code units. *)
Definition jsstring : Type := list N.

(** The code units of an ASCII literal. *)
Fixpoint js (s : string) : jsstring :=
  match s with
  | EmptyString => []
  | String c s' => N_of_ascii c :: js s'
  end.

(** The values a record field takes: a cell text, [undefined] for a cell
    that is not there, [null] for a NULL column. *)
Inductive jsval : Type :=
  | JUndefined
  | JNull
  | JString (s : jsstring).

#[global] Instance jsval_eq_dec : EqDecision jsval.
Proof. solve_decision. Defined.

(** JavaScript truthiness: [undefined], [null] and the empty string are
    falsy. *)
Definition truthy (v : jsval) : bool :=
  match v with
  | JString (_ :: _) => true
  | _ => false
  end.

(** Strict equality [===] on these values is structural equality. *)
Definition strict_eq (a b : jsval) : bool := bool_decide (a = b).

(** WhiteSpace and LineTerminator code points of ECMAScript, the ones
    [String.prototype.trim] strips. *)
Definition is_trimmed_unit (c : N) : bool :=
  ((9 <=? c) && (c <=? 13))%N
  || (c =? 32)%N || (c =? 160)%N || (c =? 5760)%N
  || ((8192 <=? c) && (c <=? 8202))%N
  || (c =? 8232)%N || (c =? 8233)%N || (c =? 8239)%N
  || (c =? 8287)%N || (c =? 12288)%N || (c =? 65279)%N.

Fixpoint trimStart (s : jsstring) : jsstring :=
  match s with
  | [] => []
  | c :: s' => if is_trimmed_unit c then trimStart s' else s
  end.

Definition trimEnd (s : jsstring) : jsstring := rev (trimStart (rev s)).

Definition trim (s : jsstring) : jsstring := trimEnd (trimStart s).

Fixpoint startsWith (needle hay : jsstring) : bool :=
  match needle, hay with
  | [], _ => true
  | _ :: _, [] => false
  | a :: needle', b :: hay' => (a =? b)%N && startsWith needle' hay'
  end.

(** [hay.includes(needle)] *)
Fixpoint includes (needle hay : jsstring) : bool :=
  startsWith needle hay ||
  match hay with
  | [] => false
  | _ :: hay' => includes needle hay'
  end.

(** ** Inventory change records *)

Record Entry : Type := mkEntry {
  timestamp : jsval;
  item : jsval;
  reason : jsval;
  quantity : jsval;
  location : jsval
}.

#[global] Instance Entry_eq_dec : EqDecision Entry.
Proof. solve_decision. Defined.

(** The identity key of a record. *)
Definition identity (e : Entry) : jsval * jsval := (timestamp e, item e).

(** ** History extraction *)

(** A table row as [page.evaluate] sees it: the [innerText] of each of
    its [td] cells. *)
Abbreviation Row := (list jsstring).

(** [cells[i]?.innerText.trim()] *)
Definition cell_text (cells : Row) (i : nat) : jsval :=
  match cells !! i with
  | Some text => JString (trim text)
  | None => JUndefined
  end.

(** The object literal both variants build from a row. *)
Definition row_object (cells : Row) : Entry :=
  {| timestamp := cell_text cells 0;
     item := cell_text cells 1;
     reason := cell_text cells 2;
     quantity := cell_text cells 3;
     location := cell_text cells 4 |}.

(** The detector: [p.timestamp === entry.timestamp && p.item === entry.item] *)
Definition same_identity (p entry : Entry) : bool :=
  strict_eq (timestamp p) (timestamp entry) && strict_eq (item p) (item entry).

(** [entry => !previous.some(p => ...)] *)
Definition is_new (previous : list Entry) (entry : Entry) : bool :=
  negb (existsb (fun p => same_identity p entry) previous).

(** [latestEntries.filter(entry => !previous.some(...))] *)
Definition newEntries (latestEntries previous : list Entry) : list Entry :=
  List.filter (is_new previous) latestEntries.

(** ** The outside world *)

(** The calls the run makes on the browser driver, in program order. *)
Inductive BrowserOp : Type :=
  | Launch | NewContext | NewPage
  | GotoLogin | FillEmail | FillPassword | ClickSubmit | WaitForNavigation
  | GotoStockHistory | WaitForTable | Evaluate | Close.

(** What can be thrown. *)
Inductive JsError : Type :=
  | TypeError (what : string)
  | LoginFailed
  | BrowserError (op : BrowserOp)
  | QueryError (n : nat)
  | UndefinedTable
  | NotNullViolation
  | PoolUsedAfterEnd
  | PoolEndedTwice
  | FsError (what : string)
  | SyntaxError
  | MailError (what : string).

(** A mail handed to the transport: the count shown in the subject, the
    rows of the HTML table and, where the variant sends one, the rows of
    the plain-text part. *)
Record Message : Type := mkMessage {
  subject_count : nat;
  html_rows : list Entry;
  text_rows : option (list Entry)
}.

(** A transporter object: whether [verify()] resolves and which mails
    [sendMail] accepts. *)
Record Transporter : Type := mkTransporter {
  verify_ok : bool;
  sendMail_ok : Message -> bool
}.

(** How a [fs.writeFile] ends.  The file is opened with flag [w], which
    truncates it, and then written: a failure to open leaves the file as
    it was, a failure while writing leaves a truncated text behind. *)
Inductive WriteOutcome : Type :=
  | WriteOk
  | WriteOpenFails
  | WriteDataFails.

(** Everything the run reads from outside.  [nodemailer] is the imported
    module object: its function members by name, each with the
    transporter it returns for the fixed Gmail configuration. *)
Record Env : Type := mkEnv {
  browser_fails : BrowserOp -> bool;
  url_after_login : jsstring;
  page_rows : list Row;
  db_fails : nat -> bool;
  nodemailer : gmap string Transporter;
  fs_read_fails : bool;
  fs_write : WriteOutcome
}.

(** A row of [inventory_state].  The [id] column is never read and is
    left out; [saved_at] is the server time of the INSERT. *)
Record DbRow : Type := mkDbRow {
  row_entry : Entry;
  saved_at : nat
}.

(** What [JSON.parse] makes of the state file. *)
Inductive JsonValue : Type :=
  | JsonArray (l : list Entry)
  | JsonOther.

(** The state file: absent, holding text that is not JSON, or holding
    the JSON text of a value. *)
Inductive FileState : Type :=
  | FileAbsent
  | FileMalformed
  | FileJson (v : JsonValue).

#[global] Instance DbRow_eq_dec : EqDecision DbRow.
Proof. solve_decision. Defined.

#[global] Instance JsonValue_eq_dec : EqDecision JsonValue.
Proof. solve_decision. Defined.

#[global] Instance FileState_eq_dec : EqDecision FileState.
Proof. solve_decision. Defined.

(** The state the run acts on.  [table] is [None] while the relation
    [inventory_state] does not exist.  Console output is not modelled. *)
Record World : Type := mkWorld {
  open_browsers : nat;
  pool_ended : bool;
  db_queries : nat;
  db_clock : nat;
  table : option (list DbRow);
  state_file : FileState;
  outbox : list Message;
  exit_code : option nat
}.

Definition set_open_browsers (n : nat) (w : World) : World :=
  mkWorld n (pool_ended w) (db_queries w) (db_clock w) (table w)
          (state_file w) (outbox w) (exit_code w).

Definition set_pool_ended (b : bool) (w : World) : World :=
  mkWorld (open_browsers w) b (db_queries w) (db_clock w) (table w)
          (state_file w) (outbox w) (exit_code w).

(** One more statement reached the server; its clock moved on. *)
Definition tick (w : World) : World :=
  mkWorld (open_browsers w) (pool_ended w) (S (db_queries w)) (S (db_clock w))
          (table w) (state_file w) (outbox w) (exit_code w).

Definition set_table (t : option (list DbRow)) (w : World) : World :=
  mkWorld (open_browsers w) (pool_ended w) (db_queries w) (db_clock w) t
          (state_file w) (outbox w) (exit_code w).

Definition set_state_file (f : FileState) (w : World) : World :=
  mkWorld (open_browsers w) (pool_ended w) (db_queries w) (db_clock w)
          (table w) f (outbox w) (exit_code w).

Definition push_outbox (m : Message) (w : World) : World :=
  mkWorld (open_browsers w) (pool_ended w) (db_queries w) (db_clock w)
          (table w) (state_file w) (outbox w ++ [m]) (exit_code w).

Definition set_exit_code (c : nat) (w : World) : World :=
  mkWorld (open_browsers w) (pool_ended w) (db_queries w) (db_clock w)
          (table w) (state_file w) (outbox w) (Some c).

(** The records the table holds, none while it does not exist. *)
Definition stored_rows (w : World) : list DbRow := default [] (table w).

(** ** The monad of awaited calls *)

Inductive Completion (A : Type) : Type :=
  | Normal (a : A)
  | Throw (e : JsError).
Arguments Normal {A} a.
Arguments Throw {A} e.

Definition M (A : Type) : Type := Env -> World -> Completion A * World.

#[global] Instance M_ret : MRet M := fun A a _ w => (Normal a, w).

#[global] Instance M_bind : MBind M := fun A B f m env w =>
  match m env w with
  | (Normal a, w') => f a env w'
  | (Throw e, w') => (Throw e, w')
  end.

Definition throw {A : Type} (e : JsError) : M A := fun _ w => (Throw e, w).

Definition ask {A : Type} (f : Env -> A) : M A := fun env w => (Normal (f env), w).

Definition modify (f : World -> World) : M unit := fun _ w => (Normal tt, f w).

(** [try { body } catch (e) { handler }] *)
Definition try_catch {A : Type} (body : M A) (handler : JsError -> M A) : M A :=
  fun env w =>
    match body env w with
    | (Normal a, w') => (Normal a, w')
    | (Throw e, w') => handler e env w'
    end.

(** [try { body } finally { fin }]: the completion of [body] stands
    unless [fin] throws. *)
Definition try_finally {A : Type} (body : M A) (fin : M unit) : M A :=
  fun env w =>
    match body env w with
    | (r, w') =>
        match fin env w' with
        | (Normal _, w'') => (r, w'')
        | (Throw e, w'') => (Throw e, w'')
        end
    end.

(** *** Browser driver *)

Definition browser_call (op : BrowserOp) : M unit := fun env w =>
  if browser_fails env op then (Throw (BrowserError op), w) else (Normal tt, w).

(** [chromium.launch(...)] *)
Definition launch : M unit :=
  browser_call Launch;; modify (fun w => set_open_browsers (S (open_browsers w)) w).

(** [browser.close()] *)
Definition close : M unit :=
  browser_call Close;; modify (fun w => set_open_browsers (pred (open_browsers w)) w).

(** *** Mail transport *)

(** [nodemailer.<name>({...})]: calling a member that is not there is a
    TypeError. *)
Definition call_nodemailer (name : string) : M Transporter := fun env w =>
  match nodemailer env !! name with
  | Some transporter => (Normal transporter, w)
  | None => (Throw (TypeError ("nodemailer." +:+ name +:+ " is not a function")), w)
  end.

(** [transporter.verify()] *)
Definition verify (t : Transporter) : M unit :=
  if verify_ok t then mret tt else throw (MailError "verify").

(** [transporter.sendMail({...})] *)
Definition sendMail (t : Transporter) (m : Message) : M unit :=
  if sendMail_ok t m then modify (push_outbox m) else throw (MailError "sendMail").

(** [process.exit(code)] *)
Definition process_exit (code : nat) : M unit := modify (set_exit_code code).

(** ** The table-backed variant, [src/index.js] *)

Module Pg.

(** The callback of [rows.map]: [null] for a row of fewer than five
    cells. *)
Definition map_row (cells : Row) : option Entry :=
  if length cells <? 5 then None else Some (row_object cells).

(** [entry => entry && entry.item && entry.timestamp] *)
Definition keep (entry : option Entry) : bool :=
  match entry with
  | None => false
  | Some e => truthy (item e) && truthy (timestamp e)
  end.

(** The function passed to [page.evaluate]. *)
Definition extract (rows : list Row) : list Entry :=
  omap id (List.filter keep (map map_row rows)).

(** *** The pool and its statements *)

(** A statement sees the server time and the table; it answers and
    leaves a table.  A statement that fails leaves the table as it
    was. *)
Definition Statement (A : Type) : Type :=
  nat -> option (list DbRow) -> Completion A * option (list DbRow).

(** [pool.query(...)].  A pool that was ended rejects every query;
    otherwise the statement goes to the server, where [db_fails] may
    make it fail before it has any effect. *)
Definition pool_query {A : Type} (stmt : Statement A) : M A := fun env w =>
  if pool_ended w then (Throw PoolUsedAfterEnd, w)
  else if db_fails env (db_queries w) then (Throw (QueryError (db_queries w)), tick w)
  else
    match stmt (db_clock w) (table w) with
    | (r, t) => (r, set_table t (tick w))
    end.

(** [pool.end()]: rejects when called a second time. *)
Definition pool_end : M unit := fun _ w =>
  if pool_ended w then (Throw PoolEndedTwice, w)
  else (Normal tt, set_pool_ended true w).

(** [CREATE TABLE IF NOT EXISTS inventory_state (...)] *)
Definition create_table : Statement unit := fun _ t =>
  (Normal tt, Some (default [] t)).

(** [CREATE INDEX IF NOT EXISTS ... ON inventory_state(timestamp, item)] *)
Definition create_index : Statement unit := fun _ t =>
  match t with
  | None => (Throw UndefinedTable, t)
  | Some _ => (Normal tt, t)
  end.

(** Insertion into a list kept by descending [saved_at]. *)
Fixpoint insert_desc (r : DbRow) (l : list DbRow) : list DbRow :=
  match l with
  | [] => [r]
  | x :: l' => if saved_at x <? saved_at r then r :: l else x :: insert_desc r l'
  end.

(** [ORDER BY saved_at DESC].  SQL leaves the order of rows with equal
    [saved_at] open; here the later inserted one comes first. *)
Definition order_by_saved_at_desc (rows : list DbRow) : list DbRow :=
  foldr insert_desc [] rows.

(** [SELECT timestamp, item, reason, quantity, location
     FROM inventory_state ORDER BY saved_at DESC LIMIT 100] *)
Definition select_recent : Statement (list Entry) := fun _ t =>
  match t with
  | None => (Throw UndefinedTable, t)
  | Some rows => (Normal (row_entry <$> take 100 (order_by_saved_at_desc rows)), t)
  end.

(** A query parameter: the driver sends [undefined] as NULL. *)
Definition to_param (v : jsval) : jsval :=
  match v with
  | JUndefined => JNull
  | _ => v
  end.

Definition is_null (v : jsval) : bool :=
  match v with
  | JNull => true
  | _ => false
  end.

(** The parameter array
    [[entry.timestamp, entry.item, entry.reason, entry.quantity, entry.location]]
    as the server receives it. *)
Definition sql_values (entry : Entry) : Entry :=
  {| timestamp := to_param (timestamp entry);
     item := to_param (item entry);
     reason := to_param (reason entry);
     quantity := to_param (quantity entry);
     location := to_param (location entry) |}.

(** [INSERT INTO inventory_state (timestamp, item, reason, quantity, location)
     VALUES ($1, $2, $3, $4, $5)]; [timestamp] and [item] are NOT NULL,
    [saved_at] defaults to NOW(). *)
Definition insert (entry : Entry) : Statement unit := fun now t =>
  match t with
  | None => (Throw UndefinedTable, t)
  | Some rows =>
      let values := sql_values entry in
      if is_null (timestamp values) || is_null (item values)
      then (Throw NotNullViolation, t)
      else (Normal tt, Some (rows ++ [{| row_entry := values; saved_at := now |}]))
  end.

Definition initDatabase : M unit :=
  pool_query create_table;;
  pool_query create_index.

Definition getPreviousEntries : M (list Entry) :=
  pool_query select_recent.

(** [for (const entry of entries) await pool.query(INSERT ...)] *)
Fixpoint saveState (entries : list Entry) : M unit :=
  match entries with
  | [] => mret tt
  | entry :: rest => pool_query (insert entry);; saveState rest
  end.

(** Modelled from the spec: the end of [sendEmail], which the source file
    breaks off before.  The notifier produces a subject with the count, a
    tabular body and a plain-text fallback, and a failed dispatch is
    fatal. *)
Definition dispatch (transporter : Transporter) (entries : list Entry) : M unit :=
  sendMail transporter
    {| subject_count := length entries;
       html_rows := entries;
       text_rows := Some entries |}.

Definition sendEmail (entries : list Entry) : M unit :=
  transporter ← call_nodemailer "createTransporter";
  verify transporter;;
  dispatch transporter entries.

(** The body of the [try] block of [checkInventory]. *)
Definition monitor : M unit :=
  browser_call GotoLogin;;
  browser_call FillEmail;;
  browser_call FillPassword;;
  browser_call ClickSubmit;;
  browser_call WaitForNavigation;;
  currentUrl ← ask url_after_login;
  (if includes (js "/login") currentUrl then throw LoginFailed else mret tt);;
  browser_call GotoStockHistory;;
  browser_call WaitForTable;;
  browser_call Evaluate;;
  latestEntries ← ask (fun env => extract (page_rows env));
  previous ← getPreviousEntries;
  let newEntries := newEntries latestEntries previous in
  if 0 <? length newEntries then
    sendEmail newEntries;;
    saveState newEntries
  else mret tt.

Definition checkInventory : M unit :=
  initDatabase;;
  launch;;
  browser_call NewContext;;
  browser_call NewPage;;
  try_finally monitor (close;; pool_end).

Definition main : M unit :=
  try_catch (checkInventory;; process_exit 0)
            (fun error => pool_end;; process_exit 1).

End Pg.

(** ** The file-backed variant *)

Module FileVariant.

(** [entry => entry.item] *)
Definition keep (entry : Entry) : bool := truthy (item entry).

(** The function passed to [page.evaluate]. *)
Definition extract (rows : list Row) : list Entry :=
  List.filter keep (map row_object rows).

(** [JSON.parse(await fs.readFile(STATE_FILE, 'utf8'))] *)
Definition read_state : M JsonValue := fun env w =>
  if fs_read_fails env then (Throw (FsError "read"), w)
  else
    match state_file w with
    | FileAbsent => (Throw (FsError "ENOENT"), w)
    | FileMalformed => (Throw SyntaxError, w)
    | FileJson v => (Normal v, w)
    end.

(** [let previous = []; try { previous = JSON.parse(...) } catch (e) {}] *)
Definition load_previous : M JsonValue :=
  try_catch read_state (fun e => mret (JsonArray [])).

(** [latestEntries.filter(entry => !previous.some(...))]: [previous.some]
    is called once per extracted record, and is not a function unless the
    parsed value is an array. *)
Definition find_new (latestEntries : list Entry) (previous : JsonValue) : M (list Entry) :=
  match previous with
  | JsonArray l => mret (newEntries latestEntries l)
  | JsonOther =>
      match latestEntries with
      | [] => mret []
      | _ :: _ => throw (TypeError "previous.some is not a function")
      end
  end.

(** [fs.writeFile(STATE_FILE, JSON.stringify(entries))] *)
Definition write_state (entries : list Entry) : M unit := fun env w =>
  match fs_write env with
  | WriteOk => (Normal tt, set_state_file (FileJson (JsonArray entries)) w)
  | WriteOpenFails => (Throw (FsError "open"), w)
  | WriteDataFails => (Throw (FsError "write"), set_state_file FileMalformed w)
  end.

Definition sendEmail (entries : list Entry) : M unit :=
  transporter ← call_nodemailer "createTransporter";
  sendMail transporter
    {| subject_count := length entries;
       html_rows := entries;
       text_rows := None |}.

Definition checkInventory : M unit :=
  launch;;
  browser_call NewPage;;
  browser_call GotoLogin;;
  browser_call FillEmail;;
  browser_call FillPassword;;
  browser_call ClickSubmit;;
  browser_call WaitForNavigation;;
  browser_call GotoStockHistory;;
  browser_call WaitForTable;;
  browser_call Evaluate;;
  latestEntries ← ask (fun env => extract (page_rows env));
  previous ← load_previous;
  newEntries ← find_new latestEntries previous;
  (if 0 <? length newEntries then sendEmail newEntries else mret tt);;
  write_state (take 20 latestEntries);;
  close.

(** [checkInventory().catch(console.error)] *)
Definition main : M unit :=
  try_catch checkInventory (fun e => mret tt).

End FileVariant.

(** ** Predicates of the specification *)

(** A row the table-backed extractor keeps: five cells or more, and
    timestamp and item not empty once trimmed. *)
Definition well_formed (cells : Row) : bool :=
  (5 <=? length cells)
  && truthy (cell_text cells 1) && truthy (cell_text cells 0).

(** What [getPreviousEntries] answers in world [w]: the hundred most
    recently saved rows. *)
Definition previous_of (w : World) : list Entry :=
  row_entry <$> take 100 (Pg.order_by_saved_at_desc (stored_rows w)).

(** The new set a table-backed run in world [w] detects. *)
Definition detected (env : Env) (w : World) : list Entry :=
  newEntries (Pg.extract (page_rows env)) (previous_of w).

(** The mail the table-backed notifier sends for a new set. *)
Definition alert (entries : list Entry) : Message :=
  {| subject_count := length entries;
     html_rows := entries;
     text_rows := Some entries |}.

(** [w'] differs from [w] in the database at most. *)
Definition same_outside_db (w w' : World) : Prop :=
  open_browsers w' = open_browsers w
  ∧ pool_ended w' = pool_ended w
  ∧ state_file w' = state_file w
  ∧ outbox w' = outbox w
  ∧ exit_code w' = exit_code w.

(** The order [ORDER BY saved_at DESC] asks for. *)
Definition newer_first (a b : DbRow) : Prop := saved_at b ≤ saved_at a.

(** The part of the world the detector and the notifier act on. *)
Definition view (w : World) : list DbRow * list Message * FileState :=
  (stored_rows w, outbox w, state_file w).

(** What a table-backed run that started in [w] and ended in [w'] with
    completion [r] did to the store and the outbox: it appended rows for
    the first [k] records of the new set, all of them if it completed
    normally, and it appended none unless the alert for the whole new set
    went out. *)
Definition appended (env : Env) (w : World) (r : Completion unit) (w' : World) : Prop :=
  ∃ (k : nat) (rows : list DbRow),
    stored_rows w' = stored_rows w ++ rows
    ∧ row_entry <$> rows = Pg.sql_values <$> take k (detected env w)
    ∧ (r = Normal tt -> k = length (detected env w))
    ∧ (k = 0 ∧ outbox w' = outbox w
       ∨ detected env w ≠ []
         ∧ is_Some (nodemailer env !! "createTransporter")
         ∧ outbox w' = outbox w ++ [alert (detected env w)])
    ∧ state_file w' = state_file w.

(** What the file-backed variant takes as previous state in world [w]. *)
Definition loaded (env : Env) (w : World) : JsonValue :=
  if fs_read_fails env then JsonArray []
  else
    match state_file w with
    | FileJson v => v
    | FileAbsent | FileMalformed => JsonArray []
    end.

(** The new set a file-backed run in world [w] detects, [None] when the
    detector throws. *)
Definition file_detected (env : Env) (w : World) : option (list Entry) :=
  match loaded env w with
  | JsonArray l => Some (newEntries (FileVariant.extract (page_rows env)) l)
  | JsonOther =>
      match FileVariant.extract (page_rows env) with
      | [] => Some []
      | _ :: _ => None
      end
  end.

(** The mail the file-backed notifier sends for a new set. *)
Definition file_alert (entries : list Entry) : Message :=
  {| subject_count := length entries;
     html_rows := entries;
     text_rows := None |}.

(** The two shapes of a file-backed run that started in [w] and ended
    in [w'] with completion [r]: it failed before step 6, with nothing
    mailed and nothing written; or it reached step 6, after mailing the
    new set if there was one, and the state file is what [fs.writeFile]
    left. *)
Definition file_run (env : Env) (w : World) (r : Completion unit) (w' : World) : Prop :=
  (outbox w' = outbox w ∧ state_file w' = state_file w ∧ ∃ e, r = Throw e)
  ∨ ∃ new : list Entry,
      file_detected env w = Some new
      ∧ outbox w' = outbox w ++ (if decide (new = []) then [] else [file_alert new])
      ∧ (new ≠ [] -> is_Some (nodemailer env !! "createTransporter"))
      ∧ match fs_write env with
        | WriteOk =>
            state_file w'
            = FileJson (JsonArray (take 20 (FileVariant.extract (page_rows env))))
        | WriteOpenFails => state_file w' = state_file w ∧ ∃ e, r = Throw e
        | WriteDataFails => state_file w' = FileMalformed ∧ ∃ e, r = Throw e
        end.

(** [wp m env w Q]: running [m] in [w] ends in a completion and a world
    that satisfy [Q]. *)
Definition wp {A : Type} (m : M A) (env : Env) (w : World)
    (Q : Completion A -> World -> Prop) : Prop :=
  Q (m env w).1 (m env w).2.

(** ** Sample data *)

Module Sample.

Definition text (s : string) : jsval := JString (js s).

Definition widget_sale : Entry :=
  mkEntry (text "01 May 2024 10:00") (text "Widget") (text "Sale") (text "-1") (text "Main").


Definition gadget_receive : Entry :=
  mkEntry (text "01 May 2024 11:30") (text "Gadget") (text "Receive") (text "+5") (text "Depot").

(** The table row a record is rendered as. *)
Definition row_of (ts it re qu lo : string) : Row := [js ts; js it; js re; js qu; js lo].

Definition widget_sale_row : Row := row_of "01 May 2024 10:00" " Widget " "Sale" "-1" "Main".

(** A transporter whose handshake and sends all succeed. *)
Definition good_transporter : Transporter :=
  {| verify_ok := true; sendMail_ok := fun _ => true |}.

(** The nodemailer module as published: it exports [createTransport]. *)
Definition nodemailer_module : gmap string Transporter :=
  {[ "createTransport" := good_transporter ]}.

(** A module that does have the member the code calls. *)
Definition nodemailer_with_createTransporter : gmap string Transporter :=
  {[ "createTransporter" := good_transporter ]}.

Definition dashboard_url : jsstring := js "https://backoffice.loyverse.com/dashboard".

(** No fault anywhere, the given page and mail module. *)
Definition calm (rows : list Row) (mailer : gmap string Transporter) : Env :=
  {| browser_fails := fun _ => false;
     url_after_login := dashboard_url;
     page_rows := rows;
     db_fails := fun _ => false;
     nodemailer := mailer;
     fs_read_fails := false;
     fs_write := WriteOk |}.

(** A first run: nothing open, no table, no state file. *)
Definition fresh : World :=
  {| open_browsers := 0;
     pool_ended := false;
     db_queries := 0;
     db_clock := 0;
     table := None;
     state_file := FileAbsent;
     outbox := [];
     exit_code := None |}.

(** [n] distinct records, numbered from [first]; the timestamp of
    record [i] is the single code unit [1000 + i], which [trim] keeps. *)
Definition stamp (i : nat) : jsstring := [N.of_nat (1000 + i)].

Definition numbered (first n : nat) : list Entry :=
  (fun i => mkEntry (JString (stamp i)) (text "Widget") (text "Sale") (text "-1") (text "Main"))
    <$> seq first n.

Definition numbered_rows (first n : nat) : list Row :=
  (fun i => [stamp i; js "Widget"; js "Sale"; js "-1"; js "Main"]) <$> seq first n.

(** A table that holds [numbered 0 100], saved at times 0 to 99, at the
    start of a later process. *)
Definition full_table : World :=
  {| open_browsers := 0;
     pool_ended := false;
     db_queries := 0;
     db_clock := 100;
     table := Some (imap (fun i e => mkDbRow e i) (numbered 0 100));
     state_file := FileAbsent;
     outbox := [];
     exit_code := None |}.

End Sample.

(** ** Further notions *)

(** A row the file-backed extractor keeps: its second cell is there and
    is not blank. *)
Definition has_item (cells : Row) : bool := truthy (cell_text cells 1).

(** A string made of white space only. *)
Definition blank (s : jsstring) : Prop := Forall (fun c => is_trimmed_unit c = true) s.

(** The cells of a row, each between the same leading and trailing
    padding. *)
Definition pad (pre post : jsstring) (cells : Row) : Row :=
  (fun text : jsstring => (pre ++ text ++ post : jsstring)) <$> cells.

(** [w'] differs from [w] in the database and the outbox at most. *)
Definition same_process (w w' : World) : Prop :=
  open_browsers w' = open_browsers w
  ∧ pool_ended w' = pool_ended w
  ∧ exit_code w' = exit_code w
  ∧ state_file w' = state_file w.


(** *** The body of the file-backed mail *)

(** What a template literal makes of a field: [`${v}`]. *)
Definition to_text (v : jsval) : jsstring :=
  match v with
  | JUndefined => js "undefined"
  | JNull => js "null"
  | JString s => s
  end.

(** A line feed, a double quote, and the two code units of the parcel
    sign U+1F4E6. *)
Definition line_feed : jsstring := [10%N].
Definition double_quote : jsstring := [34%N].
Definition parcel : jsstring := [55357%N; 56550%N].

(** The inner template of [sendEmail], one table row per record; the
    chunks of the template and its substitutions, in order. *)
Definition html_row_parts (e : Entry) : list jsstring :=
  [ line_feed; js "        <tr>"; line_feed;
    js "          <td>"; to_text (timestamp e); js "</td>"; line_feed;
    js "          <td><strong>"; to_text (item e); js "</strong></td>"; line_feed;
    js "          <td>"; to_text (reason e); js "</td>"; line_feed;
    js "          <td>"; to_text (quantity e); js "</td>"; line_feed;
    js "          <td>"; to_text (location e); js "</td>"; line_feed;
    js "        </tr>"; line_feed;
    js "      " ].

Definition html_row (e : Entry) : jsstring := concat (html_row_parts e).

(** The outer template: [html] of the file-backed [sendEmail], with
    [entries.map(...).join('')] in its place. *)
Definition html_parts (entries : list Entry) : list jsstring :=
  [ line_feed; js "    <h2>"; parcel; js " New Inventory Changes</h2>"; line_feed;
    js "    <table border="; double_quote; js "1"; double_quote;
    js " cellpadding="; double_quote; js "5"; double_quote;
    js " style="; double_quote; js "border-collapse: collapse;"; double_quote;
    js ">"; line_feed;
    js "      <tr><th>Time</th><th>Item</th><th>Reason</th><th>Qty</th><th>Location</th></tr>";
    line_feed;
    js "      "; concat (html_row <$> entries); line_feed;
    js "    </table>"; line_feed;
    js "  " ].

Definition html (entries : list Entry) : jsstring := concat (html_parts entries).

(** [needle] occurs in [hay]. *)
Definition occurs_in (needle hay : jsstring) : Prop :=
  ∃ pre post, hay = pre ++ needle ++ post.

(** * Properties *)

(** ** The detector *)

Lemma strict_eq_true (a b : jsval) : strict_eq a b = true <-> a = b.
Proof. unfold strict_eq. apply bool_decide_eq_true. Qed.

Lemma same_identity_true (p e : Entry) :
  same_identity p e = true <-> identity p = identity e.
Proof.
  unfold same_identity, identity.
  rewrite andb_true_iff, !strict_eq_true.
  split; [intros [-> ->]; reflexivity | intros [= -> ->]; done].
Qed.

Lemma existsb_same_identity (previous : list Entry) (e : Entry) :
  existsb (fun p => same_identity p e) previous = true
  <-> identity e ∈ identity <$> previous.
Proof.
  rewrite existsb_exists, list_elem_of_fmap. split.
  - intros (p & Hin & Hp). exists p. split.
    + symmetry. by apply same_identity_true.
    + by apply list_elem_of_In.
  - intros (p & Hid & Hin). exists p. split.
    + by apply list_elem_of_In.
    + by apply same_identity_true.
Qed.

Lemma is_new_true (previous : list Entry) (e : Entry) :
  is_new previous e = true <-> identity e ∉ identity <$> previous.
Proof.
  unfold is_new. rewrite negb_true_iff, <- not_true_iff_false.
  by rewrite existsb_same_identity.
Qed.

Lemma is_new_decide (previous : list Entry) (e : Entry) :
  is_new previous e = bool_decide (identity e ∉ identity <$> previous).
Proof.
  apply eq_true_iff_eq. rewrite is_new_true.
  symmetry. apply bool_decide_eq_true.
Qed.

Lemma elem_of_newEntries (latestEntries previous : list Entry) (e : Entry) :
  e ∈ newEntries latestEntries previous
  <-> e ∈ latestEntries ∧ identity e ∉ identity <$> previous.
Proof.
  unfold newEntries.
  rewrite (list_elem_of_In (List.filter _ _) e), filter_In.
  by rewrite is_new_true, <- list_elem_of_In.
Qed.

(** C1: a record is classified as new exactly when no stored record has
    an equal (timestamp, item) pair; the classification is a function of
    the identity keys alone, so reason, quantity and location of either
    side never matter, and a stored record makes every record with its
    timestamp and item known. *)
Theorem detector_keyed_by_identity (latestEntries previous : list Entry) (e : Entry) :
  (is_new previous e = true
   <-> ¬ ∃ p, p ∈ previous ∧ timestamp p = timestamp e ∧ item p = item e)
  ∧ (e ∈ newEntries latestEntries previous
     <-> e ∈ latestEntries ∧ is_new previous e = true)
  ∧ is_new previous e = bool_decide (identity e ∉ identity <$> previous)
  ∧ (∀ t i r1 q1 l1 r2 q2 l2,
       is_new previous (mkEntry t i r1 q1 l1) = is_new previous (mkEntry t i r2 q2 l2)
       ∧ is_new (mkEntry t i r1 q1 l1 :: previous) (mkEntry t i r2 q2 l2) = false).
Proof.
  split; [|split; [|split]].
  - rewrite is_new_true, list_elem_of_fmap. unfold identity. split.
    + intros Hno (p & Hp & Ht & Hi). apply Hno. exists p.
      split; [by rewrite Ht, Hi | done].
    + intros Hno (p & [= Ht Hi] & Hp). apply Hno. by exists p.
  - by rewrite elem_of_newEntries, is_new_true.
  - apply is_new_decide.
  - intros t i r1 q1 l1 r2 q2 l2. split; [by rewrite !is_new_decide|].
    rewrite is_new_decide. apply bool_decide_eq_false. intros Hnot.
    apply Hnot. rewrite fmap_cons. left.
Qed.

Lemma newEntries_nil_iff (latestEntries previous : list Entry) :
  newEntries latestEntries previous = []
  <-> identity <$> latestEntries ⊆ identity <$> previous.
Proof.
  split.
  - intros Hnil k (e & -> & He)%list_elem_of_fmap.
    destruct (decide (identity e ∈ identity <$> previous)) as [|Hnot]; [done|].
    assert (e ∈ newEntries latestEntries previous) as Hin
      by by apply elem_of_newEntries.
    rewrite Hnil in Hin. by apply not_elem_of_nil in Hin.
  - intros Hsub.
    destruct (newEntries latestEntries previous) as [|e l] eqn:Hnew; [done|].
    assert (e ∈ newEntries latestEntries previous) as [He Hnot]%elem_of_newEntries
      by (rewrite Hnew; left).
    destruct Hnot. apply Hsub. by apply list_elem_of_fmap_2.
Qed.

(** Every extracted record is either known or in the new set. *)
Lemma latest_covered (latestEntries previous : list Entry) :
  identity <$> latestEntries
  ⊆ identity <$> (previous ++ newEntries latestEntries previous).
Proof.
  intros k (e & -> & He)%list_elem_of_fmap.
  rewrite fmap_app, elem_of_app.
  destruct (decide (identity e ∈ identity <$> previous)) as [|Hnot]; [by left|].
  right. apply list_elem_of_fmap_2. by apply elem_of_newEntries.
Qed.

(** C8, as amended: once the store holds what the first run loaded and
    what it found new, running the detector again on the same extracted
    sequence yields the empty new set. *)
Theorem detector_rerun_after_append (latestEntries previous previous' : list Entry) :
  identity <$> (previous ++ newEntries latestEntries previous) ⊆ identity <$> previous' ->
  newEntries latestEntries previous' = [].
Proof.
  intros Hsub. apply newEntries_nil_iff.
  intros k Hk. apply Hsub. by apply latest_covered.
Qed.

Lemma detector_rerun_after_append_witness :
  identity <$> ([Sample.widget_sale]
                ++ newEntries [Sample.widget_sale; Sample.gadget_receive] [Sample.widget_sale])
    ⊆ identity <$> [Sample.widget_sale; Sample.gadget_receive]
  ∧ newEntries [Sample.widget_sale; Sample.gadget_receive]
               [Sample.widget_sale; Sample.gadget_receive] = [].
Proof.
  assert (identity <$> ([Sample.widget_sale]
                ++ newEntries [Sample.widget_sale; Sample.gadget_receive] [Sample.widget_sale])
    ⊆ identity <$> [Sample.widget_sale; Sample.gadget_receive]) as Hsub.
  { intros k Hk. vm_compute in Hk. vm_compute. exact Hk. }
  split; [exact Hsub|].
  exact (detector_rerun_after_append
           [Sample.widget_sale; Sample.gadget_receive] [Sample.widget_sale]
           [Sample.widget_sale; Sample.gadget_receive] Hsub).
Defined.

(** C8, as stated, fails: against an unchanged store the second pass of
    the detector reports the same records as the first.  Nor does a
    completed run in between always help: with 100 rows stored, the
    append of one new record moves the oldest known one out of the
    window that is read back, and the next pass reports it as new. *)
Lemma detector_rerun_unchanged_store_not_empty :
  (let latestEntries := [Sample.widget_sale; Sample.gadget_receive] in
   let previous := [Sample.widget_sale] in
   let first_pass := newEntries latestEntries previous in
   let second_pass := newEntries latestEntries previous in
   first_pass = [Sample.gadget_receive] ∧ second_pass ≠ [])
  ∧ (let env :=
       Sample.calm (Sample.numbered_rows 0 1 ++ Sample.numbered_rows 500 1)
                   Sample.nodemailer_with_createTransporter in
     let '(r, w') := Pg.checkInventory env Sample.full_table in
     r = Normal tt
     ∧ detected env Sample.full_table = Sample.numbered 500 1
     ∧ detected env w' = Sample.numbered 0 1).
Proof. vm_compute. repeat split; discriminate. Qed.

(** ** History extraction *)

Lemma Pg_extract_cons (cells : Row) (rows : list Row) :
  Pg.extract (cells :: rows)
  = if well_formed cells then row_object cells :: Pg.extract rows
    else Pg.extract rows.
Proof.
  unfold Pg.extract, well_formed. cbn [map List.filter].
  unfold Pg.map_row at 1 2.
  destruct (Nat.ltb_spec (length cells) 5) as [Hlt|Hge].
  - replace (5 <=? length cells) with false
      by (symmetry; apply Nat.leb_gt; lia).
    reflexivity.
  - replace (5 <=? length cells) with true
      by (symmetry; apply Nat.leb_le; lia).
    cbn [Pg.keep row_object item timestamp andb].
    by destruct (truthy (cell_text cells 1) && truthy (cell_text cells 0)).
Qed.

(** The table-backed extractor surfaces exactly the well-formed rows, in
    page order. *)
Lemma Pg_extract_well_formed (rows : list Row) :
  Pg.extract rows = row_object <$> List.filter well_formed rows.
Proof.
  induction rows as [|cells rows IH]; [done|].
  rewrite Pg_extract_cons. cbn [List.filter].
  destruct (well_formed cells); [|done]. by rewrite fmap_cons, IH.
Qed.

(** What the table-backed extractor guarantees of every record it
    surfaces: it comes from a row of at least five cells, all five
    fields are strings, and timestamp and item are not empty. *)
Lemma Pg_extract_populated (rows : list Row) (e : Entry) :
  e ∈ Pg.extract rows ->
  ∃ cells ts it re qu lo,
    cells ∈ rows ∧ 5 ≤ length cells
    ∧ e = mkEntry (JString ts) (JString it) (JString re) (JString qu) (JString lo)
    ∧ ts = trim (default [] (cells !! 0)) ∧ it = trim (default [] (cells !! 1))
    ∧ ts ≠ [] ∧ it ≠ [].
Proof.
  rewrite Pg_extract_well_formed.
  intros (cells & -> & Hin)%list_elem_of_fmap.
  apply list_elem_of_In, filter_In in Hin as [Hin Hwf].
  unfold well_formed in Hwf.
  apply andb_true_iff in Hwf as [[Hlen%Nat.leb_le Hit]%andb_true_iff Hts].
  destruct cells as [|c0 [|c1 [|c2 [|c3 [|c4 cells]]]]]; cbn in Hlen; try lia.
  unfold cell_text in Hts, Hit. cbn in Hts, Hit.
  exists (c0 :: c1 :: c2 :: c3 :: c4 :: cells),
    (trim c0), (trim c1), (trim c2), (trim c3), (trim c4).
  repeat split; try done.
  - by apply list_elem_of_In.
  - intros Heq. by rewrite Heq in Hts.
  - intros Heq. by rewrite Heq in Hit.
Qed.

(** C4 holds of the table-backed extractor and fails for the file-backed
    one, which checks [entry.item] alone: a row of two cells with an
    empty timestamp is surfaced, with three fields undefined. *)
Theorem file_extract_surfaces_malformed_row :
  FileVariant.extract [[js "  "; js "Widget"]]
  = [ {| timestamp := JString [];
         item := Sample.text "Widget";
         reason := JUndefined;
         quantity := JUndefined;
         location := JUndefined |} ]
  ∧ Pg.extract [[js "  "; js "Widget"]] = [].
Proof. split; reflexivity. Qed.

(** ** Rules for runs *)

Section Rules.

Context (env : Env).

Lemma wp_mono {A : Type} (m : M A) (w : World) (Q Q' : Completion A -> World -> Prop) :
  (∀ r w', Q r w' -> Q' r w') -> wp m env w Q -> wp m env w Q'.
Proof. unfold wp. auto. Qed.

Lemma wp_ret {A : Type} (a : A) (w : World) (Q : Completion A -> World -> Prop) :
  Q (Normal a) w -> wp (mret a) env w Q.
Proof. done. Qed.

Lemma wp_throw {A : Type} (e : JsError) (w : World) (Q : Completion A -> World -> Prop) :
  Q (Throw e) w -> wp (throw e) env w Q.
Proof. done. Qed.

Lemma wp_ask {A : Type} (f : Env -> A) (w : World) (Q : Completion A -> World -> Prop) :
  Q (Normal (f env)) w -> wp (ask f) env w Q.
Proof. done. Qed.

Lemma wp_modify (f : World -> World) (w : World) (Q : Completion unit -> World -> Prop) :
  Q (Normal tt) (f w) -> wp (modify f) env w Q.
Proof. done. Qed.

Lemma wp_bind {A B : Type} (m : M A) (f : A -> M B) (w : World)
    (Q : Completion B -> World -> Prop) :
  wp m env w (fun r w1 =>
    match r with
    | Normal a => wp (f a) env w1 Q
    | Throw e => Q (Throw e) w1
    end) ->
  wp (m ≫= f) env w Q.
Proof.
  unfold wp, mbind, M_bind. by destruct (m env w) as [[a|e] w1].
Qed.

Lemma wp_try_finally {A : Type} (body : M A) (fin : M unit) (w : World)
    (Q : Completion A -> World -> Prop) :
  wp body env w (fun r w1 =>
    wp fin env w1 (fun rf w2 =>
      match rf with
      | Normal _ => Q r w2
      | Throw e => Q (Throw e) w2
      end)) ->
  wp (try_finally body fin) env w Q.
Proof.
  unfold wp, try_finally. destruct (body env w) as [r w1]. cbn.
  by destruct (fin env w1) as [[[]|e] w2].
Qed.

Lemma wp_try_catch {A : Type} (body : M A) (handler : JsError -> M A) (w : World)
    (Q : Completion A -> World -> Prop) :
  wp body env w (fun r w1 =>
    match r with
    | Normal a => Q (Normal a) w1
    | Throw e => wp (handler e) env w1 Q
    end) ->
  wp (try_catch body handler) env w Q.
Proof.
  unfold wp, try_catch. by destruct (body env w) as [[a|e] w1].
Qed.

Lemma wp_browser_call (op : BrowserOp) (w : World) (Q : Completion unit -> World -> Prop) :
  Q (Throw (BrowserError op)) w -> Q (Normal tt) w ->
  wp (browser_call op) env w Q.
Proof. unfold wp, browser_call. by destruct (browser_fails env op). Qed.

Lemma wp_pool_query {A : Type} (stmt : Pg.Statement A) (w : World)
    (Q : Completion A -> World -> Prop) :
  (pool_ended w = true -> Q (Throw PoolUsedAfterEnd) w) ->
  (pool_ended w = false -> Q (Throw (QueryError (db_queries w))) (tick w)) ->
  (pool_ended w = false ->
   Q (stmt (db_clock w) (table w)).1 (set_table (stmt (db_clock w) (table w)).2 (tick w))) ->
  wp (Pg.pool_query stmt) env w Q.
Proof.
  unfold wp, Pg.pool_query. intros Hended Hfail Hrun.
  destruct (pool_ended w); [by apply Hended|].
  destruct (db_fails env (db_queries w)); [by apply Hfail|].
  specialize (Hrun eq_refl).
  by destruct (stmt (db_clock w) (table w)).
Qed.

Lemma wp_pool_end (w : World) (Q : Completion unit -> World -> Prop) :
  Q (Throw PoolEndedTwice) w -> Q (Normal tt) (set_pool_ended true w) ->
  wp Pg.pool_end env w Q.
Proof. unfold wp, Pg.pool_end. by destruct (pool_ended w). Qed.

End Rules.

(** ** The table-backed store *)

Ltac wp_step :=
  lazymatch goal with
  | |- wp (mbind _ _) _ _ _ => apply wp_bind
  | |- wp (mret _) _ _ _ => apply wp_ret
  | |- wp (throw _) _ _ _ => apply wp_throw
  | |- wp (ask _) _ _ _ => apply wp_ask
  | |- wp (modify _) _ _ _ => apply wp_modify
  | |- wp (browser_call _) _ _ _ => apply wp_browser_call
  | |- wp Pg.pool_end _ _ _ => apply wp_pool_end
  | |- wp (try_finally _ _) _ _ _ => apply wp_try_finally
  | |- wp (try_catch _ _) _ _ _ => apply wp_try_catch
  end;
  cbn beta iota.

Lemma stored_rows_set_table (rows : list DbRow) (w : World) :
  stored_rows (set_table (Some rows) w) = rows.
Proof. done. Qed.

Lemma same_outside_db_refl (w : World) : same_outside_db w w.
Proof. by repeat split. Qed.

(** [saveState] appends one row per record, in order, until a statement
    fails; rows stored earlier stay in place. *)
Lemma saveState_spec (env : Env) (entries : list Entry) (w : World) :
  wp (Pg.saveState entries) env w (fun r w' =>
    ∃ (k : nat) (rows : list DbRow),
      k ≤ length entries
      ∧ stored_rows w' = stored_rows w ++ rows
      ∧ row_entry <$> rows = Pg.sql_values <$> take k entries
      ∧ (r = Normal tt -> k = length entries)
      ∧ same_outside_db w w').
Proof.
  revert w. induction entries as [|entry rest IH]; intros w; cbn [Pg.saveState].
  { wp_step. exists 0, []. rewrite app_nil_r.
    repeat split; auto using same_outside_db_refl. }
  wp_step. apply wp_pool_query; cbn beta iota.
  - intros _. exists 0, []. rewrite app_nil_r.
    repeat split; auto using same_outside_db_refl; [cbn; lia | done].
  - intros _. exists 0, []. rewrite app_nil_r.
    repeat split; auto; [cbn; lia | done].
  - intros _. unfold Pg.insert.
    destruct (table w) as [rows0|] eqn:Htable.
    2:{ cbn. exists 0, []. unfold stored_rows. cbn. rewrite Htable.
        repeat split; auto; [lia | done]. }
    cbn zeta.
    destruct (Pg.is_null (timestamp (Pg.sql_values entry))
              || Pg.is_null (item (Pg.sql_values entry))).
    { cbn. exists 0, []. unfold stored_rows. cbn. rewrite Htable, app_nil_r.
      repeat split; auto; [lia | done]. }
    cbn [fst snd].
    eapply wp_mono; [|apply IH].
    intros r w' (k & rows & Hk & Hrows & Hentries & Hall & Hsame).
    exists (S k), ({| row_entry := Pg.sql_values entry; saved_at := db_clock w |} :: rows).
    rewrite stored_rows_set_table in Hrows.
    assert (stored_rows w = rows0) as -> by (unfold stored_rows; by rewrite Htable).
    destruct Hsame as (?&?&?&?&?).
    split; [cbn; lia|]. split; [by rewrite Hrows, <- app_assoc|].
    split; [cbn [take]; by rewrite !fmap_cons, Hentries|].
    split; [intros ->%Hall; done|].
    by repeat split.
Qed.

(** ** The notifier *)

(** Either [sendEmail] hands the alert to a transporter that the module
    built, or it throws and leaves the world as it was. *)
Lemma Pg_sendEmail_spec (env : Env) (entries : list Entry) (w : World) :
  wp (Pg.sendEmail entries) env w (fun r w' =>
    match nodemailer env !! "createTransporter" with
    | None =>
        r = Throw (TypeError "nodemailer.createTransporter is not a function")
        ∧ w' = w
    | Some t =>
        if verify_ok t && sendMail_ok t (alert entries)
        then r = Normal tt ∧ w' = push_outbox (alert entries) w
        else (∃ e, r = Throw e) ∧ w' = w
    end).
Proof.
  unfold wp, Pg.sendEmail, Pg.dispatch, call_nodemailer, verify, sendMail, alert,
    mbind, M_bind.
  destruct (nodemailer env !! "createTransporter") as [t|]; [|done].
  destruct (verify_ok t); cbn; [|by eauto].
  destruct (sendMail_ok t _); cbn; by eauto.
Qed.

Lemma File_sendEmail_spec (env : Env) (entries : list Entry) (w : World) :
  wp (FileVariant.sendEmail entries) env w (fun r w' =>
    match nodemailer env !! "createTransporter" with
    | None =>
        r = Throw (TypeError "nodemailer.createTransporter is not a function")
        ∧ w' = w
    | Some t =>
        (r = Normal tt ∧ outbox w' = outbox w ++ [mkMessage (length entries) entries None]
         ∨ (∃ e, r = Throw e) ∧ outbox w' = outbox w)
        ∧ state_file w' = state_file w
        ∧ open_browsers w' = open_browsers w
    end).
Proof.
  unfold wp, FileVariant.sendEmail, call_nodemailer, sendMail, mbind, M_bind.
  destruct (nodemailer env !! "createTransporter") as [t|]; [|done].
  destruct (sendMail_ok t _); cbn; (split; [|done]); [by left|right; by eauto].
Qed.

(** ** A table-backed run *)

Lemma appended_nothing (env : Env) (w w' : World) (e : JsError) :
  stored_rows w' = stored_rows w -> outbox w' = outbox w ->
  state_file w' = state_file w ->
  appended env w (Throw e) w'.
Proof.
  intros Hrows Hout Hfile. exists 0, []. rewrite app_nil_r.
  split; [done|]. split; [done|]. split; [done|]. split; [by left|done].
Qed.

(** The [try] block neither stores nor mails anything until it reaches
    the notifier. *)
Lemma monitor_spec (env : Env) (w : World) :
  wp Pg.monitor env w (appended env w).
Proof.
  unfold Pg.monitor.
  do 5 (wp_step; wp_step; [by apply appended_nothing|]).
  wp_step. wp_step. wp_step.
  destruct (includes _ _); wp_step; [by apply appended_nothing|].
  do 3 (wp_step; wp_step; [by apply appended_nothing|]).
  wp_step. wp_step. wp_step.
  unfold Pg.getPreviousEntries. apply wp_pool_query; cbn beta iota;
    try (intros _; by apply appended_nothing).
  intros _. unfold Pg.select_recent.
  destruct (table w) as [rows0|] eqn:Htable; cbn [fst snd].
  2:{ apply appended_nothing; try done. unfold stored_rows. cbn. by rewrite Htable. }
  assert (stored_rows w = rows0) as Hrows0 by (unfold stored_rows; by rewrite Htable).
  subst rows0.
  change (row_entry <$> take 100 (Pg.order_by_saved_at_desc (stored_rows w)))
    with (previous_of w).
  change (newEntries (Pg.extract (page_rows env)) (previous_of w))
    with (detected env w).
  set (w1 := set_table (Some (stored_rows w)) (tick w)).
  assert (stored_rows w1 = stored_rows w) as Hw1 by done.
  destruct (Nat.ltb_spec 0 (length (detected env w))) as [Hlen|Hlen].
  2:{ wp_step. exists 0, []. rewrite app_nil_r.
      split; [done|]. split; [done|]. split; [intros _; lia|].
      split; [by left|done]. }
  wp_step. eapply wp_mono; [|apply Pg_sendEmail_spec].
  intros r w2. cbn beta.
  destruct (nodemailer env !! "createTransporter") as [t|] eqn:Hmember.
  2:{ intros [-> ->]. by apply appended_nothing. }
  destruct (verify_ok t && sendMail_ok t (alert (detected env w))).
  2:{ intros [[e ->] ->]. by apply appended_nothing. }
  intros [-> ->].
  eapply wp_mono; [|apply saveState_spec].
  intros r w3 (k & rows & Hk & Hrows & Hentries & Hall & Hsame).
  destruct Hsame as (_ & _ & Hfile & Hout & _).
  exists k, rows.
  split; [by rewrite Hrows|]. split; [done|]. split; [done|].
  split; [|by rewrite Hfile].
  right. split; [|split; [done|by rewrite Hout]].
  intros Hnil. rewrite Hnil in Hlen. cbn in Hlen. lia.
Qed.

Lemma appended_view (env : Env) (w0 w0' w1 w1' : World) (r r' : Completion unit) :
  view w0' = view w0 -> view w1' = view w1 ->
  (r' = r ∨ ∃ e, r' = Throw e) ->
  appended env w0 r w1 -> appended env w0' r' w1'.
Proof.
  unfold view. intros [= Hrows0 Hout0 Hfile0] [= Hrows1 Hout1 Hfile1] Hr.
  unfold appended, detected, previous_of.
  rewrite Hrows0, Hout0, Hfile0, Hrows1, Hout1, Hfile1.
  intros (k & rows & ? & ? & Hall & ? & ?). exists k, rows.
  repeat (split; [done|]). split; [|done].
  destruct Hr as [->|[e ->]]; done.
Qed.

Lemma appended_nothing_view (env : Env) (w w' : World) (e : JsError) :
  view w' = view w -> appended env w (Throw e) w'.
Proof. intros [= ? ? ?]. by apply appended_nothing. Qed.

(** What a whole run of the table-backed [checkInventory] does to the
    store and the outbox. *)
Lemma Pg_checkInventory_spec (env : Env) (w : World) :
  wp Pg.checkInventory env w (appended env w).
Proof.
  unfold Pg.checkInventory, Pg.initDatabase, launch, close.
  wp_step. wp_step. apply wp_pool_query; cbn beta iota;
    try (intros _; by apply appended_nothing_view).
  intros _. cbn [Pg.create_table fst snd].
  set (w1 := set_table _ (tick w)).
  assert (view w1 = view w) as Hw1 by done.
  apply wp_pool_query; cbn beta iota;
    try (intros _; by apply appended_nothing_view).
  intros _. cbn [Pg.create_index w1 set_table table tick fst snd].
  set (w2 := set_table _ (tick w1)).
  assert (view w2 = view w) as Hw2 by done.
  wp_step. wp_step. wp_step; [by apply appended_nothing_view|].
  wp_step.
  set (w3 := set_open_browsers _ w2).
  assert (view w3 = view w) as Hw3 by done.
  do 2 (wp_step; wp_step; [by apply appended_nothing_view|]).
  wp_step. eapply wp_mono; [|apply monitor_spec].
  intros r w4 Happ.
  wp_step. wp_step. wp_step.
  { eapply appended_view; [exact Hw3|reflexivity| |exact Happ]. by eauto. }
  wp_step. wp_step.
  { eapply appended_view; [exact Hw3|reflexivity| |exact Happ]. by eauto. }
  eapply appended_view; [exact Hw3|reflexivity| |exact Happ]. by left.
Qed.

(** ** A file-backed run *)

(** Loading the previous state never fails. *)
Lemma load_previous_eq (env : Env) (w : World) :
  FileVariant.load_previous env w = (Normal (loaded env w), w).
Proof.
  unfold FileVariant.load_previous, try_catch, FileVariant.read_state, loaded.
  destruct (fs_read_fails env); [done|].
  by destruct (state_file w).
Qed.

Lemma find_new_eq (env : Env) (w : World) (latestEntries : list Entry) (previous : JsonValue) :
  FileVariant.find_new latestEntries previous env w
  = (match previous with
     | JsonArray l => Normal (newEntries latestEntries l)
     | JsonOther =>
         match latestEntries with
         | [] => Normal []
         | _ :: _ => Throw (TypeError "previous.some is not a function")
         end
     end, w).
Proof. destruct previous as [l|]; [done|]. by destruct latestEntries. Qed.

Lemma file_run_failed (env : Env) (w w' : World) (e : JsError) :
  outbox w' = outbox w -> state_file w' = state_file w ->
  file_run env w (Throw e) w'.
Proof. intros Hout Hfile. left. by eauto. Qed.

Lemma File_checkInventory_spec (env : Env) (w : World) :
  wp FileVariant.checkInventory env w (file_run env w).
Proof.
  unfold FileVariant.checkInventory, launch, close.
  wp_step. wp_step. wp_step; [by apply file_run_failed|].
  wp_step.
  set (w1 := set_open_browsers _ w).
  do 9 (wp_step; wp_step; [by apply file_run_failed|]).
  wp_step. wp_step. wp_step.
  unfold wp at 1. rewrite load_previous_eq. cbn [fst snd].
  wp_step. unfold wp at 1. rewrite find_new_eq. cbn [fst snd].
  assert (match
            match loaded env w with
            | JsonArray l => Normal (newEntries (FileVariant.extract (page_rows env)) l)
            | JsonOther =>
                match FileVariant.extract (page_rows env) with
                | [] => Normal []
                | _ :: _ => Throw (TypeError "previous.some is not a function")
                end
            end
          with
          | Normal new => file_detected env w = Some new
          | Throw _ => True
          end) as Hdetected.
  { unfold file_detected. destruct (loaded env w) as [l|]; [done|].
    by destruct (FileVariant.extract (page_rows env)). }
  change (loaded env w1) with (loaded env w).
  destruct (match loaded env w with JsonArray _ => _ | JsonOther => _ end)
    as [new|e]; [|by apply file_run_failed].
  assert (∀ w2 : World,
    outbox w2 = outbox w ++ (if decide (new = []) then [] else [file_alert new]) ->
    (new ≠ [] -> is_Some (nodemailer env !! "createTransporter")) ->
    state_file w2 = state_file w ->
    wp (FileVariant.write_state (take 20 (FileVariant.extract (page_rows env)));;
        browser_call Close;;
        modify (fun w => set_open_browsers (pred (open_browsers w)) w)) env w2
       (file_run env w)) as Hwrite.
  { intros w2 Hout Hmember Hfile. wp_step.
    unfold wp at 1, FileVariant.write_state.
    destruct (fs_write env) eqn:Hfs; cbn [fst snd].
    - wp_step. wp_step; [|wp_step]; right; exists new; rewrite Hfs;
        repeat (split; [done|]); done.
    - right. exists new. rewrite Hfs. repeat (split; [done|]). by eauto.
    - right. exists new. rewrite Hfs. repeat (split; [done|]). by eauto. }
  wp_step.
  destruct (Nat.ltb_spec 0 (length new)) as [Hlen|Hlen].
  2:{ destruct new; [|cbn in Hlen; lia].
      wp_step. apply Hwrite; [by rewrite app_nil_r|done|done]. }
  assert (new ≠ []) as Hnew by (intros ->; cbn in Hlen; lia).
  eapply wp_mono; [|apply File_sendEmail_spec].
  intros r w2. cbn beta.
  destruct (nodemailer env !! "createTransporter") as [t|] eqn:Hmember.
  2:{ intros [-> ->]. by apply file_run_failed. }
  intros [[[-> Hout]|[[e ->] Hout]] [Hfile _]].
  2:{ apply file_run_failed; by rewrite ?Hout, ?Hfile. }
  apply Hwrite; [|done|by rewrite Hfile].
  by rewrite Hout, decide_False.
Qed.

(** ** Notification before persistence *)

Lemma snoc_ne_self {A : Type} (l : list A) (x : A) : l ++ [x] ≠ l.
Proof.
  intros Heq. apply (f_equal length) in Heq.
  rewrite length_app in Heq. cbn in Heq. lia.
Qed.

Lemma appended_rows_changed (env : Env) (w w' : World) (r : Completion unit) :
  appended env w r w' -> stored_rows w' ≠ stored_rows w ->
  detected env w ≠ [] ∧ outbox w' = outbox w ++ [alert (detected env w)].
Proof.
  intros (k & rows & Hrows & Hentries & _ & [[-> Hout]|(Hnew & _ & Hout)] & _) Hchanged;
    [|done].
  destruct rows; [|done]. by rewrite app_nil_r in Hrows.
Qed.

Lemma appended_rows_same (env : Env) (w w' : World) (r : Completion unit) :
  appended env w r w' -> detected env w = [] ∨ outbox w' = outbox w ->
  stored_rows w' = stored_rows w.
Proof.
  intros Happ Hnone.
  destruct (decide (stored_rows w' = stored_rows w)) as [|Hchanged]; [done|].
  destruct (appended_rows_changed _ _ _ _ Happ Hchanged) as [Hnew Hout].
  destruct Hnone as [Hnil|Hsame]; [done|].
  rewrite Hsame in Hout. by apply symmetry, snoc_ne_self in Hout.
Qed.

(** C2, as amended: the table-backed run appends to the store only after
    the alert for a non-empty new set went out, and leaves the store as
    it was when nothing is new or nothing was sent.  The file-backed run
    leaves the state file as it was when the send fails, and otherwise
    overwrites it once it reaches step 6, also when nothing is new. *)
Theorem store_written_only_after_notification (env : Env) (w : World) :
  let pg := (Pg.checkInventory env w).2 in
  let file := (FileVariant.checkInventory env w).2 in
  (stored_rows pg ≠ stored_rows w ->
   detected env w ≠ [] ∧ outbox pg = outbox w ++ [alert (detected env w)])
  ∧ (detected env w = [] ∨ outbox pg = outbox w -> stored_rows pg = stored_rows w)
  ∧ (state_file file ≠ state_file w ->
     ∃ new, file_detected env w = Some new
            ∧ (new = [] ∨ outbox file = outbox w ++ [file_alert new]))
  ∧ (outbox file = outbox w -> file_detected env w ≠ Some [] ->
     state_file file = state_file w)
  ∧ ((FileVariant.checkInventory env w).1 = Normal tt ->
     state_file file
     = FileJson (JsonArray (take 20 (FileVariant.extract (page_rows env))))).
Proof.
  cbn zeta.
  pose proof (Pg_checkInventory_spec env w) as Hpg.
  pose proof (File_checkInventory_spec env w) as Hfile.
  unfold wp in Hpg, Hfile.
  split; [exact (appended_rows_changed _ _ _ _ Hpg)|].
  split; [exact (appended_rows_same _ _ _ _ Hpg)|].
  destruct Hfile as [(Hout & Hstate & e & He)|(new & Hnew & Hout & _ & Hwrite)].
  { split; [done|]. split; [by intros _ _|]. by rewrite He. }
  split; [|split].
  - intros _. exists new. split; [done|].
    destruct (decide (new = [])); [by left|by right].
  - intros Hsame Hsome. destruct (decide (new = [])) as [->|Hne]; [done|].
    rewrite Hsame in Hout. by apply symmetry, snoc_ne_self in Hout.
  - intros Hnormal. destruct (fs_write env); [done|..];
      destruct Hwrite as [_ [e He]]; by rewrite He in Hnormal.
Qed.

Lemma store_written_only_after_notification_witness :
  let env := Sample.calm [Sample.widget_sale_row] Sample.nodemailer_with_createTransporter in
  let w := Sample.fresh in
  stored_rows (Pg.checkInventory env w).2 ≠ stored_rows w
  ∧ detected env w ≠ []
  ∧ outbox (Pg.checkInventory env w).2 = outbox w ++ [alert (detected env w)].
Proof.
  cbn zeta. split; [by vm_compute|].
  apply (store_written_only_after_notification
           (Sample.calm [Sample.widget_sale_row] Sample.nodemailer_with_createTransporter)
           Sample.fresh).
  by vm_compute.
Defined.

(** C2, as stated, fails for the file-backed variant: a run that detects
    no new record still rewrites the state file. *)
Lemma file_run_without_new_records_rewrites_store :
  let env := Sample.calm [Sample.widget_sale_row] Sample.nodemailer_module in
  let w :=
    set_state_file
      (FileJson (JsonArray [Sample.widget_sale; Sample.gadget_receive]))
      Sample.fresh in
  let w' := (FileVariant.checkInventory env w).2 in
  file_detected env w = Some []
  ∧ outbox w' = outbox w
  ∧ state_file w' = FileJson (JsonArray [Sample.widget_sale])
  ∧ state_file w' ≠ state_file w.
Proof. by vm_compute. Qed.

(** C3: when the nodemailer module has no member [createTransporter],
    [sendEmail] throws a TypeError in both variants without touching the
    world; no run mails anything; the table-backed run stores nothing;
    and a run that detects a non-empty new set fails, in the file-backed
    variant before it writes the state file. *)
Theorem createTransporter_missing_blocks_notification (env : Env) (w : World) :
  nodemailer env !! "createTransporter" = None ->
  (∀ entries,
     Pg.sendEmail entries env w
     = (Throw (TypeError "nodemailer.createTransporter is not a function"), w)
     ∧ FileVariant.sendEmail entries env w
       = (Throw (TypeError "nodemailer.createTransporter is not a function"), w))
  ∧ (let '(r, w') := Pg.checkInventory env w in
     outbox w' = outbox w
     ∧ stored_rows w' = stored_rows w
     ∧ (detected env w ≠ [] -> ∃ e, r = Throw e))
  ∧ (let '(r, w') := FileVariant.checkInventory env w in
     outbox w' = outbox w
     ∧ ∀ new, file_detected env w = Some new -> new ≠ [] ->
         state_file w' = state_file w ∧ ∃ e, r = Throw e).
Proof.
  intros Hmissing. split; [|split].
  - intros entries.
    pose proof (Pg_sendEmail_spec env entries w) as Hpg.
    pose proof (File_sendEmail_spec env entries w) as Hfile.
    unfold wp in Hpg, Hfile. rewrite Hmissing in Hpg, Hfile.
    destruct (Pg.sendEmail entries env w), (FileVariant.sendEmail entries env w).
    cbn in Hpg, Hfile. destruct Hpg as [-> ->], Hfile as [-> ->]. done.
  - pose proof (Pg_checkInventory_spec env w) as Hpg. unfold wp in Hpg.
    destruct (Pg.checkInventory env w) as [r w']. cbn [fst snd] in Hpg.
    destruct Hpg as (k & rows & Hrows & Hentries & Hall & Hsent & _).
    destruct Hsent as [[-> Hout]|(_ & [t Ht] & _)]; [|congruence].
    destruct rows; [|done]. rewrite app_nil_r in Hrows.
    repeat split; [done..|].
    intros Hnew. destruct r as [[]|e]; [|by eauto].
    specialize (Hall eq_refl). by destruct (detected env w).
  - pose proof (File_checkInventory_spec env w) as Hfile. unfold wp in Hfile.
    destruct (FileVariant.checkInventory env w) as [r w']. cbn [fst snd] in Hfile.
    destruct Hfile as [(Hout & Hstate & Hr)|(new & Hnew & Hout & Hmember & _)].
    + split; [done|]. by intros _ _ _.
    + destruct (decide (new = [])) as [->|Hne].
      * rewrite app_nil_r in Hout. split; [done|].
        intros new' Hnew' Hne'. congruence.
      * destruct (Hmember Hne) as [t Ht]. congruence.
Qed.

Lemma createTransporter_missing_blocks_notification_witness :
  let env := Sample.calm [Sample.widget_sale_row] Sample.nodemailer_module in
  nodemailer env !! "createTransporter" = None
  ∧ Pg.sendEmail [Sample.widget_sale] env Sample.fresh
    = (Throw (TypeError "nodemailer.createTransporter is not a function"), Sample.fresh).
Proof.
  cbn zeta. split; [by vm_compute|].
  apply (createTransporter_missing_blocks_notification
           (Sample.calm [Sample.widget_sale_row] Sample.nodemailer_module)
           Sample.fresh).
  by vm_compute.
Defined.

(** ** Appending to the table *)



(** ** Identities appended by one run *)








(** ** The window *)

Lemma insert_desc_perm (r : DbRow) (l : list DbRow) :
  Pg.insert_desc r l ≡ₚ r :: l.
Proof.
  induction l as [|x l IH]; cbn [Pg.insert_desc]; [done|].
  destruct (saved_at x <? saved_at r); [done|].
  rewrite IH. apply Permutation_swap.
Qed.

Lemma order_by_saved_at_desc_perm (rows : list DbRow) :
  Pg.order_by_saved_at_desc rows ≡ₚ rows.
Proof.
  induction rows as [|r rows IH]; cbn [Pg.order_by_saved_at_desc foldr]; [done|].
  fold (Pg.order_by_saved_at_desc rows). by rewrite insert_desc_perm, IH.
Qed.

Lemma insert_desc_sorted (r : DbRow) (l : list DbRow) :
  StronglySorted newer_first l -> StronglySorted newer_first (Pg.insert_desc r l).
Proof.
  induction 1 as [|x l Hsorted IH Hall]; cbn [Pg.insert_desc];
    [by repeat constructor|].
  destruct (Nat.ltb_spec (saved_at x) (saved_at r)) as [Hlt|Hge].
  - constructor; [by constructor|].
    constructor; [unfold newer_first; lia|].
    eapply Forall_impl; [exact Hall|]. unfold newer_first. intros y Hy. lia.
  - constructor; [done|].
    rewrite insert_desc_perm. by constructor.
Qed.

Lemma order_by_saved_at_desc_sorted (rows : list DbRow) :
  StronglySorted newer_first (Pg.order_by_saved_at_desc rows).
Proof.
  induction rows as [|r rows IH]; cbn [Pg.order_by_saved_at_desc foldr];
    [constructor|].
  by apply insert_desc_sorted.
Qed.

(** C5, as amended: appending to the table prunes nothing, the rows
    stored before stay and the new ones follow them; only reading is
    bounded, by the hundred rows with the latest [saved_at].  The
    file-backed run that completes replaces the state file by the first
    twenty extracted records. *)
Theorem store_window (env : Env) (entries : list Entry) (w : World) :
  (∀ w', Pg.saveState entries env w = (Normal tt, w') ->
     ∃ rows, stored_rows w' = stored_rows w ++ rows
             ∧ row_entry <$> rows = Pg.sql_values <$> entries)
  ∧ (∀ l w', Pg.getPreviousEntries env w = (Normal l, w') ->
       ∃ sorted, sorted ≡ₚ stored_rows w
                 ∧ StronglySorted newer_first sorted
                 ∧ l = row_entry <$> take 100 sorted
                 ∧ stored_rows w' = stored_rows w)
  ∧ (∀ w', FileVariant.checkInventory env w = (Normal tt, w') ->
       state_file w'
       = FileJson (JsonArray (take 20 (FileVariant.extract (page_rows env))))).
Proof.
  split; [|split].
  - intros w' Hrun.
    pose proof (saveState_spec env entries w) as Hspec. unfold wp in Hspec.
    rewrite Hrun in Hspec. cbn [fst snd] in Hspec.
    destruct Hspec as (k & rows & _ & Hrows & Hentries & Hall & _).
    exists rows. split; [done|].
    by rewrite Hentries, (Hall eq_refl), firstn_all.
  - intros l w'. unfold Pg.getPreviousEntries, Pg.pool_query, Pg.select_recent.
    destruct (pool_ended w); [done|].
    destruct (db_fails env (db_queries w)); [done|].
    destruct (table w) as [rows|] eqn:Htable; [|done].
    intros [= <- <-].
    exists (Pg.order_by_saved_at_desc rows).
    unfold stored_rows at 1 3. rewrite Htable. cbn [default].
    split; [apply order_by_saved_at_desc_perm|].
    split; [apply order_by_saved_at_desc_sorted|]. done.
  - intros w' Hrun.
    pose proof (File_checkInventory_spec env w) as Hspec. unfold wp in Hspec.
    rewrite Hrun in Hspec. cbn [fst snd] in Hspec.
    destruct Hspec as [(_ & _ & e & He)|(new & _ & _ & _ & Hwrite)]; [done|].
    destruct (fs_write env); [done|..]; by destruct Hwrite as [_ [e He]].
Qed.

Lemma store_window_witness :
  let env := Sample.calm [] Sample.nodemailer_module in
  let w := set_table (Some []) Sample.fresh in
  let w' := (Pg.saveState [Sample.widget_sale] env w).2 in
  Pg.saveState [Sample.widget_sale] env w = (Normal tt, w')
  ∧ ∃ rows, stored_rows w' = stored_rows w ++ rows
            ∧ row_entry <$> rows = Pg.sql_values <$> [Sample.widget_sale].
Proof.
  cbn zeta.
  assert (Pg.saveState [Sample.widget_sale] (Sample.calm [] Sample.nodemailer_module)
            (set_table (Some []) Sample.fresh)
          = (Normal tt,
             (Pg.saveState [Sample.widget_sale] (Sample.calm [] Sample.nodemailer_module)
                (set_table (Some []) Sample.fresh)).2)) as Hrun by by vm_compute.
  split; [exact Hrun|].
  exact (proj1 (store_window _ _ _) _ Hrun).
Defined.

(** C5, as stated, fails: an append that takes the table past the
    window of 100 leaves all 101 rows in it.  And the file-backed run
    that finds a new record in the 21st row of the page mails it and
    then writes the first twenty rows, the new record not among them. *)
Lemma append_beyond_window_prunes_nothing :
  (let env := Sample.calm [] Sample.nodemailer_module in
   let w := set_table (Some []) Sample.fresh in
   let '(r, w') := Pg.saveState (Sample.numbered 0 101) env w in
   r = Normal tt
   ∧ length (stored_rows w') = 101
   ∧ row_entry <$> stored_rows w' = Sample.numbered 0 101)
  ∧ (let env :=
       Sample.calm (Sample.numbered_rows 0 21) Sample.nodemailer_with_createTransporter in
     let w := set_state_file (FileJson (JsonArray (Sample.numbered 0 20))) Sample.fresh in
     let '(r, w') := FileVariant.checkInventory env w in
     r = Normal tt
     ∧ outbox w' = [file_alert (Sample.numbered 20 1)]
     ∧ state_file w' = FileJson (JsonArray (Sample.numbered 0 20))).
Proof. by vm_compute. Qed.

(** ** Loading the previous state *)

(** C9, as amended: the file-backed variant never fails to load; it
    takes the parsed value when the file can be read and parsed, and the
    empty list in every other case, absent, unreadable or malformed.  The
    table-backed variant creates a missing table and reads it as empty,
    and its read fails when the pool or the statement fails. *)
Theorem previous_state_loading (env : Env) (w : World) :
  FileVariant.load_previous env w
  = (Normal
       (if fs_read_fails env then JsonArray []
        else
          match state_file w with
          | FileJson v => v
          | FileAbsent | FileMalformed => JsonArray []
          end), w)
  ∧ (table w = None -> pool_ended w = false ->
     (∀ n, db_fails env n = false) ->
     ∃ w', (Pg.initDatabase;; Pg.getPreviousEntries) env w = (Normal [], w')
           ∧ table w' = Some [])
  ∧ (pool_ended w = true ∨ db_fails env (db_queries w) = true ->
     ∃ e w', Pg.getPreviousEntries env w = (Throw e, w')).
Proof.
  split; [apply load_previous_eq|]. split.
  - intros Htable Hpool Hcalm.
    unfold Pg.initDatabase, Pg.getPreviousEntries, mbind, M_bind, Pg.pool_query.
    rewrite Hpool, Hcalm, Htable. cbn. rewrite Hpool, Hcalm. cbn.
    rewrite Hpool, Hcalm. cbn. by eexists.
  - unfold Pg.getPreviousEntries, Pg.pool_query.
    intros [->| Hfail]; [by eauto|].
    destruct (pool_ended w); [by eauto|]. rewrite Hfail. by eauto.
Qed.

Lemma previous_state_loading_witness :
  let env := Sample.calm [] Sample.nodemailer_module in
  table Sample.fresh = None
  ∧ pool_ended Sample.fresh = false
  ∧ (∀ n, db_fails env n = false)
  ∧ ∃ w', (Pg.initDatabase;; Pg.getPreviousEntries) env Sample.fresh = (Normal [], w')
          ∧ table w' = Some [].
Proof.
  cbn zeta. repeat split; try reflexivity.
  apply (previous_state_loading (Sample.calm [] Sample.nodemailer_module) Sample.fresh);
    reflexivity.
Defined.

(** C9, as stated, fails for the file-backed variant: a state file that
    does not parse, or cannot be read, is taken as the empty previous
    state and no error surfaces. *)
Lemma malformed_state_file_read_as_empty :
  let env := Sample.calm [] Sample.nodemailer_module in
  let unreadable :=
    mkEnv (fun _ => false) Sample.dashboard_url [] (fun _ => false)
          Sample.nodemailer_module true WriteOk in
  let malformed := set_state_file FileMalformed Sample.fresh in
  let stored := set_state_file (FileJson (JsonArray [Sample.widget_sale])) Sample.fresh in
  FileVariant.load_previous env malformed = (Normal (JsonArray []), malformed)
  ∧ FileVariant.load_previous unreadable stored = (Normal (JsonArray []), stored).
Proof. by vm_compute. Qed.

(** ** Resource release *)

(** C10 fails on the code.  The file-backed run has no release on
    failure: when the notifier throws, the browser stays open.  The
    table-backed run launches the browser before it enters [try]: when
    [browser.newContext()] fails, [main] ends the pool and exits with
    the browser still open. *)
Theorem failed_run_leaves_browser_open :
  let file_env := Sample.calm [Sample.widget_sale_row] Sample.nodemailer_module in
  let pg_env :=
    mkEnv (fun op => match op with NewContext => true | _ => false end)
          Sample.dashboard_url [Sample.widget_sale_row] (fun _ => false)
          Sample.nodemailer_module false WriteOk in
  FileVariant.checkInventory file_env Sample.fresh
  = (Throw (TypeError "nodemailer.createTransporter is not a function"),
     set_open_browsers 1 Sample.fresh)
  ∧ open_browsers (FileVariant.main file_env Sample.fresh).2 = 1
  ∧ (Pg.checkInventory pg_env Sample.fresh).1 = Throw (BrowserError NewContext)
  ∧ open_browsers (Pg.main pg_env Sample.fresh).2 = 1
  ∧ pool_ended (Pg.main pg_env Sample.fresh).2 = true
  ∧ exit_code (Pg.main pg_env Sample.fresh).2 = Some 1.
Proof. by vm_compute. Qed.

(** Inside the [try] block nothing opens or closes a browser or ends the
    pool. *)
Lemma monitor_keeps_resources (env : Env) (w : World) :
  wp Pg.monitor env w (fun _ w' =>
    open_browsers w' = open_browsers w ∧ pool_ended w' = pool_ended w).
Proof.
  unfold Pg.monitor.
  do 5 (wp_step; wp_step; [done|]).
  wp_step. wp_step. wp_step.
  destruct (includes _ _); wp_step; [done|].
  do 3 (wp_step; wp_step; [done|]).
  wp_step. wp_step. wp_step.
  unfold Pg.getPreviousEntries. apply wp_pool_query; cbn beta iota; try done.
  intros _. unfold Pg.select_recent.
  destruct (table w) as [rows0|]; cbn [fst snd]; [|done].
  destruct (0 <? length _); [|by wp_step].
  wp_step. eapply wp_mono; [|apply Pg_sendEmail_spec].
  intros r w2. cbn beta.
  destruct (nodemailer env !! "createTransporter") as [t|].
  2:{ by intros [-> ->]. }
  destruct (verify_ok t && sendMail_ok t _).
  2:{ by intros [[e ->] ->]. }
  intros [-> ->].
  eapply wp_mono; [|apply saveState_spec].
  intros r w3 (_ & _ & _ & _ & _ & _ & Hbrowsers & Hpool & _).
  by rewrite Hbrowsers, Hpool.
Qed.

(** Once the table-backed run is inside [try], it closes the browser and
    ends the pool however the block ends, unless [browser.close()]
    itself fails. *)
Lemma Pg_try_block_releases (env : Env) (w : World) :
  browser_fails env Close = false -> pool_ended w = false ->
  let w' := (try_finally Pg.monitor (close;; Pg.pool_end) env w).2 in
  open_browsers w' = pred (open_browsers w) ∧ pool_ended w' = true.
Proof.
  intros Hclose Hpool. cbn zeta.
  pose proof (monitor_keeps_resources env w) as Hkeeps. unfold wp in Hkeeps.
  unfold try_finally, close, mbind, M_bind, browser_call, modify, Pg.pool_end.
  destruct (Pg.monitor env w) as [r w1]. cbn [fst snd] in Hkeeps.
  destruct Hkeeps as [Hbrowsers Hended].
  rewrite Hclose. cbn. rewrite Hended, Hpool. cbn. by rewrite Hbrowsers.
Qed.

(** ** Running again after a completed run *)




(** * Further properties *)

(** ** The detector, continued *)

Lemma newEntries_sublist (latestEntries previous : list Entry) :
  newEntries latestEntries previous `sublist_of` latestEntries.
Proof.
  induction latestEntries as [|e l IH]; cbn; [done|].
  destruct (is_new previous e); by constructor.
Qed.

(** X1: the new set keeps the extraction order and drops nothing new:
    it is a sublist of the extracted sequence, every extracted record
    is in it or has the key of a stored record, and against an empty
    store it is the whole extracted sequence. *)
Theorem detector_keeps_order (latestEntries previous : list Entry) :
  newEntries latestEntries previous `sublist_of` latestEntries
  ∧ (∀ e, e ∈ latestEntries ->
       e ∈ newEntries latestEntries previous ∨ identity e ∈ identity <$> previous)
  ∧ newEntries latestEntries [] = latestEntries.
Proof.
  split; [apply newEntries_sublist|]. split.
  - intros e He.
    destruct (decide (identity e ∈ identity <$> previous)); [by right|].
    left. by apply elem_of_newEntries.
  - unfold newEntries. induction latestEntries as [|e l IH]; cbn; [done|].
    by rewrite IH.
Qed.

Lemma is_new_app (p1 p2 : list Entry) (e : Entry) :
  is_new (p1 ++ p2) e = is_new p1 e && is_new p2 e.
Proof. unfold is_new. by rewrite existsb_app, negb_orb. Qed.

(** X2: detection composes.  Checking against two stores at once is
    checking against one and then the other, and the new set of a page
    read in two parts is the two new sets one after the other. *)
Theorem detector_composes (l1 l2 p1 p2 : list Entry) :
  newEntries l1 (p1 ++ p2) = newEntries (newEntries l1 p1) p2
  ∧ newEntries (l1 ++ l2) p1 = newEntries l1 p1 ++ newEntries l2 p1.
Proof.
  split; [|apply List.filter_app].
  unfold newEntries. induction l1 as [|e l IH]; [done|].
  cbn [List.filter]. rewrite is_new_app, IH.
  destruct (is_new p1 e); [|done].
  cbn [andb List.filter]. reflexivity.
Qed.

(** ** Extraction, continued *)

(** X3: the table-backed extractor surfaces the rows with five cells or
    more whose first two cells are not blank, in page order and nothing
    else; every record it surfaces has five string fields. *)
Theorem Pg_extract_exact (rows : list Row) :
  Pg.extract rows = row_object <$> List.filter well_formed rows
  ∧ ∀ e, e ∈ Pg.extract rows ->
      ∃ ts it re qu lo,
        e = mkEntry (JString ts) (JString it) (JString re) (JString qu) (JString lo)
        ∧ ts ≠ [] ∧ it ≠ [].
Proof.
  split; [apply Pg_extract_well_formed|].
  intros e (cells & ts & it & re & qu & lo & _ & _ & -> & _ & _ & Hts & Hit)%Pg_extract_populated.
  by exists ts, it, re, qu, lo.
Qed.

Lemma File_extract_has_item (rows : list Row) :
  FileVariant.extract rows = row_object <$> List.filter has_item rows.
Proof.
  unfold FileVariant.extract.
  induction rows as [|cells rows IH]; cbn [map List.filter]; [done|].
  unfold FileVariant.keep at 1, has_item at 1. cbn [row_object item].
  destruct (truthy (cell_text cells 1)); by rewrite ?fmap_cons, IH.
Qed.

Lemma well_formed_has_item (cells : Row) :
  well_formed cells = true -> has_item cells = true.
Proof.
  unfold well_formed, has_item.
  by intros [[_ Hitem]%andb_true_iff _]%andb_true_iff.
Qed.

Lemma filter_stricter_sublist {A : Type} (p q : A -> bool) (l : list A) :
  (∀ x, p x = true -> q x = true) ->
  List.filter p l `sublist_of` List.filter q l.
Proof.
  intros Himpl. induction l as [|x l IH]; cbn; [done|].
  destruct (p x) eqn:Hp.
  - rewrite (Himpl x Hp). by constructor.
  - destruct (q x); by try constructor.
Qed.

(** X4: the file-backed extractor surfaces the rows whose second cell is
    not blank, whatever their length, in page order; what the
    table-backed extractor surfaces from a page is a sublist of what the
    file-backed one surfaces from it. *)
Theorem File_extract_exact (rows : list Row) :
  FileVariant.extract rows = row_object <$> List.filter has_item rows
  ∧ Pg.extract rows `sublist_of` FileVariant.extract rows.
Proof.
  split; [apply File_extract_has_item|].
  rewrite Pg_extract_well_formed, File_extract_has_item.
  apply fmap_sublist, filter_stricter_sublist, well_formed_has_item.
Qed.

Lemma trimStart_blank (s : jsstring) : blank s -> trimStart s = [].
Proof. induction 1 as [|c s Hc _ IH]; cbn; [done|]. by rewrite Hc. Qed.

Lemma trimStart_blank_app (pre s : jsstring) :
  blank pre -> trimStart (pre ++ s) = trimStart s.
Proof. induction 1 as [|c pre Hc _ IH]; cbn; [done|]. by rewrite Hc. Qed.

Lemma trimStart_app_blank (s post : jsstring) :
  blank post ->
  trimStart (s ++ post)
  = match trimStart s with
    | [] => []
    | _ :: _ => trimStart s ++ post
    end.
Proof.
  intros Hpost. induction s as [|c s IH]; cbn; [by apply trimStart_blank|].
  by destruct (is_trimmed_unit c).
Qed.

Lemma trimEnd_app_blank (s post : jsstring) :
  blank post -> trimEnd (s ++ post) = trimEnd s.
Proof.
  intros Hpost. unfold trimEnd.
  rewrite rev_app_distr, trimStart_blank_app; [done|].
  by apply Forall_rev.
Qed.

Lemma trim_pad (pre post s : jsstring) :
  blank pre -> blank post -> trim (pre ++ s ++ post) = trim s.
Proof.
  intros Hpre Hpost. unfold trim.
  rewrite trimStart_blank_app, trimStart_app_blank by done.
  destruct (trimStart s) as [|c s'] eqn:Hs; [done|].
  by rewrite trimEnd_app_blank.
Qed.

Lemma cell_text_pad (pre post : jsstring) (cells : Row) (i : nat) :
  blank pre -> blank post ->
  cell_text (pad pre post cells) i = cell_text cells i.
Proof.
  intros Hpre Hpost. unfold cell_text, pad. rewrite list_lookup_fmap.
  destruct (cells !! i) as [text|]; cbn [fmap option_fmap option_map]; [|done].
  by rewrite trim_pad.
Qed.

Lemma row_object_pad (pre post : jsstring) (cells : Row) :
  blank pre -> blank post ->
  row_object (pad pre post cells) = row_object cells.
Proof. intros Hpre Hpost. unfold row_object. by rewrite !cell_text_pad. Qed.

(** X5: white space around the text of the cells changes nothing: a
    page whose cells carry leading and trailing white space yields the
    same records, in both variants, as the page without it. *)
Theorem extraction_ignores_padding (pre post : jsstring) (rows : list Row) :
  blank pre -> blank post ->
  Pg.extract (pad pre post <$> rows) = Pg.extract rows
  ∧ FileVariant.extract (pad pre post <$> rows) = FileVariant.extract rows.
Proof.
  intros Hpre Hpost.
  rewrite !Pg_extract_well_formed, !File_extract_has_item. split.
  - induction rows as [|cells rows IH]; [done|].
    rewrite fmap_cons. cbn [List.filter].
    assert (well_formed (pad pre post cells) = well_formed cells) as ->.
    { unfold well_formed. rewrite !cell_text_pad by done.
      unfold pad. by rewrite length_fmap. }
    destruct (well_formed cells); [|done].
    by rewrite !fmap_cons, IH, row_object_pad.
  - induction rows as [|cells rows IH]; [done|].
    rewrite fmap_cons. cbn [List.filter].
    assert (has_item (pad pre post cells) = has_item cells) as ->
      by (unfold has_item; by rewrite cell_text_pad).
    destruct (has_item cells); [|done].
    by rewrite !fmap_cons, IH, row_object_pad.
Qed.

Lemma extraction_ignores_padding_witness :
  blank (js "  ") ∧ blank (js " ")
  ∧ Pg.extract (pad (js "  ") (js " ") <$> [Sample.widget_sale_row])
    = Pg.extract [Sample.widget_sale_row].
Proof.
  assert (blank (js "  ")) as Hpre by (repeat constructor).
  assert (blank (js " ")) as Hpost by (repeat constructor).
  split; [exact Hpre|]. split; [exact Hpost|].
  exact (proj1 (extraction_ignores_padding _ _ [Sample.widget_sale_row] Hpre Hpost)).
Defined.

(** ** The login check *)

Lemma startsWith_prefix (needle hay : jsstring) :
  startsWith needle hay = true <-> ∃ post, hay = needle ++ post.
Proof.
  revert hay. induction needle as [|a needle IH]; intros hay; cbn.
  { split; [by eexists|done]. }
  destruct hay as [|b hay].
  { split; [done|by intros [post ?]]. }
  rewrite andb_true_iff, N.eqb_eq, IH. split.
  - intros [-> [post ->]]. by exists post.
  - intros [post [= -> ->]]. by eauto.
Qed.

(** [includes] holds of the strings that have the needle somewhere
    inside. *)
Lemma includes_infix (needle hay : jsstring) :
  includes needle hay = true <-> ∃ pre post, hay = pre ++ needle ++ post.
Proof.
  induction hay as [|b hay IH]; cbn [includes]; rewrite orb_true_iff, startsWith_prefix.
  - split.
    + intros [[post Hpost]|?]; [|done]. by exists [], post.
    + intros (pre & post & Heq). left.
      destruct pre; [by exists post|done].
  - rewrite IH. split.
    + intros [[post Hpost]|(pre & post & ->)]; [by exists [], post|].
      by exists (b :: pre), post.
    + intros (pre & post & Heq). destruct pre as [|c pre].
      * left. by exists post.
      * right. injection Heq as -> ->. by eauto.
Qed.

(** X6: when the address after the login still has [/login] in it, and
    nothing else goes wrong, the table-backed run fails with the login
    error before it reads the page or the store: it has made its two
    schema statements and no other, stored and mailed nothing, closed
    the browser and ended the pool. *)
Theorem login_rejected_stops_run (env : Env) (w : World) :
  (∃ pre post, url_after_login env = pre ++ js "/login" ++ post) ->
  (∀ op, browser_fails env op = false) ->
  pool_ended w = false ->
  db_fails env (db_queries w) = false ->
  db_fails env (S (db_queries w)) = false ->
  ∃ w', Pg.checkInventory env w = (Throw LoginFailed, w')
        ∧ stored_rows w' = stored_rows w
        ∧ outbox w' = outbox w
        ∧ open_browsers w' = open_browsers w
        ∧ pool_ended w' = true
        ∧ db_queries w' = db_queries w + 2.
Proof.
  intros Hurl%includes_infix Hbrowser Hpool Hq1 Hq2.
  unfold Pg.checkInventory, Pg.initDatabase, Pg.monitor, launch, close,
    try_finally, mbind, M_bind, Pg.pool_query, browser_call, modify, ask,
    throw, Pg.pool_end.
  rewrite Hpool, Hq1. cbn [Pg.create_table tick set_table pool_ended db_queries
    db_clock table].
  rewrite Hpool, Hq2, !Hbrowser, Hurl.
  cbn [Pg.create_index set_open_browsers set_table tick pool_ended open_browsers].
  rewrite Hpool. eexists. split; [reflexivity|].
  cbn. repeat split; lia.
Qed.

Lemma login_rejected_stops_run_witness :
  let env :=
    mkEnv (fun _ => false) (js "https://backoffice.loyverse.com/login?error=1")
          [Sample.widget_sale_row] (fun _ => false) Sample.nodemailer_module false WriteOk in
  (∃ pre post, url_after_login env = pre ++ js "/login" ++ post)
  ∧ ∃ w', Pg.checkInventory env Sample.fresh = (Throw LoginFailed, w')
          ∧ stored_rows w' = stored_rows Sample.fresh
          ∧ outbox w' = outbox Sample.fresh
          ∧ open_browsers w' = open_browsers Sample.fresh
          ∧ pool_ended w' = true
          ∧ db_queries w' = db_queries Sample.fresh + 2.
Proof.
  cbn zeta.
  assert (∃ pre post,
            js "https://backoffice.loyverse.com/login?error=1"
            = pre ++ js "/login" ++ post) as Hurl.
  { exists (js "https://backoffice.loyverse.com"), (js "?error=1"). reflexivity. }
  split; [exact Hurl|].
  apply login_rejected_stops_run; [exact Hurl|reflexivity..].
Defined.

Section LoginIgnored.

Context (env : Env) (url : jsstring).

Let env' : Env :=
  mkEnv (browser_fails env) url (page_rows env) (db_fails env)
        (nodemailer env) (fs_read_fails env) (fs_write env).

(** [m] runs alike whether the login landed at [url] or where [env]
    says. *)
Let alike {A : Type} (m : M A) : Prop := ∀ w, m env' w = m env w.

Lemma alike_bind {A B : Type} (m : M A) (f : A -> M B) :
  alike m -> (∀ a, alike (f a)) -> alike (m ≫= f).
Proof.
  intros Hm Hf w. unfold mbind, M_bind. rewrite Hm.
  destruct (m env w) as [[a|e] w']; [apply Hf|done].
Qed.

Lemma alike_browser_call (op : BrowserOp) : alike (browser_call op).
Proof. done. Qed.

Lemma alike_file_sendEmail (entries : list Entry) :
  alike (FileVariant.sendEmail entries).
Proof.
  apply alike_bind; [done|]. intros t w. unfold sendMail.
  by destruct (sendMail_ok t _).
Qed.

Lemma alike_find_new (latestEntries : list Entry) (previous : JsonValue) :
  alike (FileVariant.find_new latestEntries previous).
Proof. intros w. by rewrite !find_new_eq. Qed.

(** X7: the file-backed run never looks at where the login landed: with
    any other address after the login it does exactly the same. *)
Theorem file_run_ignores_login_outcome (w : World) :
  FileVariant.checkInventory
    (mkEnv (browser_fails env) url (page_rows env) (db_fails env)
           (nodemailer env) (fs_read_fails env) (fs_write env)) w
  = FileVariant.checkInventory env w.
Proof.
  revert w. change (alike FileVariant.checkInventory).
  unfold FileVariant.checkInventory, launch, close.
  repeat (apply alike_bind; [try apply alike_bind; try done|intros ?]).
  - apply alike_find_new.
  - destruct (0 <? length _); [apply alike_file_sendEmail|done].
  - done.
Qed.

End LoginIgnored.

(** ** The schema *)

(** X8: [initDatabase] creates the table when it is missing and never
    touches the rows of one that is there; it cannot fail for want of
    the table, since the index is created after it; and with the pool
    open and both statements accepted it succeeds. *)
Theorem initDatabase_keeps_rows (env : Env) (w : World) :
  let '(r, w') := Pg.initDatabase env w in
  stored_rows w' = stored_rows w
  ∧ same_outside_db w w'
  ∧ (r = Normal tt -> table w' = Some (stored_rows w))
  ∧ r ≠ Throw UndefinedTable
  ∧ (pool_ended w = false -> db_fails env (db_queries w) = false ->
     db_fails env (S (db_queries w)) = false -> r = Normal tt).
Proof.
  unfold Pg.initDatabase, mbind, M_bind, Pg.pool_query.
  destruct (pool_ended w) eqn:Hpool.
  { repeat split; try done. }
  destruct (db_fails env (db_queries w)) eqn:Hq1.
  { repeat split; try done. }
  cbn [Pg.create_table tick set_table pool_ended db_queries db_clock table].
  rewrite Hpool.
  destruct (db_fails env (S (db_queries w))) eqn:Hq2.
  { repeat split; try done. }
  cbn [Pg.create_index]. repeat split; try done.
Qed.

(** ** Resources of a table-backed run *)

Lemma same_process_refl (w : World) : same_process w w.
Proof. by repeat split. Qed.

Lemma monitor_same_process (env : Env) (w : World) :
  wp Pg.monitor env w (fun _ w' => same_process w w').
Proof.
  unfold Pg.monitor.
  do 5 (wp_step; wp_step; [apply same_process_refl|]).
  wp_step. wp_step. wp_step.
  destruct (includes _ _); wp_step; [apply same_process_refl|].
  do 3 (wp_step; wp_step; [apply same_process_refl|]).
  wp_step. wp_step. wp_step.
  unfold Pg.getPreviousEntries. apply wp_pool_query; cbn beta iota;
    try (intros _; by repeat split).
  intros _. unfold Pg.select_recent.
  destruct (table w) as [rows0|]; cbn [fst snd]; [|by repeat split].
  destruct (0 <? length _); [|wp_step; by repeat split].
  wp_step. eapply wp_mono; [|apply Pg_sendEmail_spec].
  intros r w2. cbn beta.
  destruct (nodemailer env !! "createTransporter") as [t|].
  2:{ intros [-> ->]. by repeat split. }
  destruct (verify_ok t && sendMail_ok t _).
  2:{ intros [[e ->] ->]. by repeat split. }
  intros [-> ->].
  eapply wp_mono; [|apply saveState_spec].
  intros r w3 (_ & _ & _ & _ & _ & _ & Hbrowsers & Hpool & Hfile & _ & Hexit).
  by repeat split.
Qed.

(** What a table-backed run does to the process: it leaves the exit
    code alone, leaves at most one browser open, and when it completes
    it has closed its browser and ended the pool. *)
Lemma Pg_checkInventory_resources (env : Env) (w : World) :
  wp Pg.checkInventory env w (fun r w' =>
    exit_code w' = exit_code w
    ∧ (open_browsers w' = open_browsers w ∨ open_browsers w' = S (open_browsers w))
    ∧ (pool_ended w = true -> pool_ended w' = true)
    ∧ (r = Normal tt -> pool_ended w' = true ∧ open_browsers w' = open_browsers w)).
Proof.
  unfold Pg.checkInventory, Pg.initDatabase, launch, close.
  wp_step. wp_step. apply wp_pool_query; cbn beta iota;
    try (intros _; repeat split; by auto).
  intros _. cbn [Pg.create_table fst snd].
  apply wp_pool_query; cbn beta iota; try (intros; repeat split; by auto).
  intros Hpool. cbn [Pg.create_index set_table table tick fst snd].
  wp_step. wp_step. wp_step; [repeat split; by auto|].
  wp_step.
  do 2 (wp_step; wp_step; [repeat split; cbn; by auto|]).
  wp_step. eapply wp_mono; [|apply monitor_same_process].
  intros r w4 (Hbrowsers & Hended & Hexit & _).
  cbn in Hbrowsers, Hended, Hexit.
  wp_step. wp_step. wp_step.
  { split; [done|]. split; [by right|]. split; [congruence|done]. }
  wp_step. wp_step; cbn [set_open_browsers set_pool_ended exit_code
    open_browsers pool_ended]; rewrite Hbrowsers; cbn [pred].
  - split; [done|]. split; [by left|]. split; [congruence|done].
  - split; [done|]. split; [by left|]. by destruct r as [[]|e].
Qed.

Lemma bind_eq {A B : Type} (m : M A) (f : A -> M B) (env : Env) (w : World) :
  (m ≫= f) env w
  = match m env w with
    | (Normal a, w') => f a env w'
    | (Throw e, w') => (Throw e, w')
    end.
Proof. reflexivity. Qed.

Lemma browser_call_ok (env : Env) (op : BrowserOp) (w : World) :
  browser_fails env op = false -> browser_call op env w = (Normal tt, w).
Proof. unfold browser_call. by intros ->. Qed.

Lemma initDatabase_ok (env : Env) (w : World) :
  pool_ended w = false ->
  db_fails env (db_queries w) = false ->
  db_fails env (S (db_queries w)) = false ->
  Pg.initDatabase env w
  = (Normal tt, set_table (Some (stored_rows w)) (tick (tick w))).
Proof.
  intros Hpool Hq1 Hq2. unfold Pg.initDatabase, mbind, M_bind, Pg.pool_query.
  rewrite Hpool, Hq1.
  cbn [Pg.create_table tick set_table pool_ended db_queries db_clock table].
  by rewrite Hpool, Hq2.
Qed.

Lemma Pg_checkInventory_enters_try (env : Env) (w : World) :
  pool_ended w = false ->
  db_fails env (db_queries w) = false ->
  db_fails env (S (db_queries w)) = false ->
  browser_fails env Launch = false ->
  browser_fails env NewContext = false ->
  browser_fails env NewPage = false ->
  Pg.checkInventory env w
  = try_finally Pg.monitor (close;; Pg.pool_end) env
      (set_open_browsers (S (open_browsers w))
         (set_table (Some (stored_rows w)) (tick (tick w)))).
Proof.
  intros Hpool Hq1 Hq2 Hlaunch Hcontext Hpage.
  unfold Pg.checkInventory, launch.
  rewrite bind_eq, initDatabase_ok by done.
  rewrite bind_eq, bind_eq, browser_call_ok by done.
  unfold modify at 1.
  rewrite bind_eq, browser_call_ok by done.
  rewrite bind_eq, browser_call_ok by done.
  reflexivity.
Qed.

(** X9: once the schema statements and the launch of the browser and
    its page have succeeded, the table-backed run gives back what it
    took, however it ends, unless [browser.close()] itself fails: no
    browser of its own stays open and the pool is ended. *)
Theorem Pg_run_releases (env : Env) (w : World) :
  pool_ended w = false ->
  db_fails env (db_queries w) = false ->
  db_fails env (S (db_queries w)) = false ->
  browser_fails env Launch = false ->
  browser_fails env NewContext = false ->
  browser_fails env NewPage = false ->
  browser_fails env Close = false ->
  open_browsers (Pg.checkInventory env w).2 = open_browsers w
  ∧ pool_ended (Pg.checkInventory env w).2 = true.
Proof.
  intros Hpool Hq1 Hq2 Hlaunch Hcontext Hpage Hclose.
  rewrite Pg_checkInventory_enters_try by done.
  by apply Pg_try_block_releases.
Qed.

Lemma Pg_run_releases_witness :
  let env :=
    mkEnv (fun op => match op with WaitForTable => true | _ => false end)
          Sample.dashboard_url [] (fun _ => false) Sample.nodemailer_module false WriteOk in
  (Pg.checkInventory env Sample.fresh).1 = Throw (BrowserError WaitForTable)
  ∧ open_browsers (Pg.checkInventory env Sample.fresh).2 = open_browsers Sample.fresh
  ∧ pool_ended (Pg.checkInventory env Sample.fresh).2 = true.
Proof.
  cbn zeta. split; [by vm_compute|].
  apply Pg_run_releases; reflexivity.
Defined.

(** ** The entry point *)

(** X10: [main] always leaves the pool ended.  It exits with code 0
    exactly when the run completed.  When the run failed with the pool
    still open it ends the pool and exits with code 1; when the run
    failed after its own [finally] had ended the pool, the second
    [pool.end()] rejects, [main] rejects with it and [process.exit] is
    never called. *)
Theorem main_exit_protocol (env : Env) (w : World) :
  let '(r1, w1) := Pg.checkInventory env w in
  let '(r, w') := Pg.main env w in
  pool_ended w' = true
  ∧ match r1 with
    | Normal _ => r = Normal tt ∧ exit_code w' = Some 0
    | Throw _ =>
        if pool_ended w1
        then r = Throw PoolEndedTwice ∧ w' = w1 ∧ exit_code w' = exit_code w
        else r = Normal tt ∧ exit_code w' = Some 1
    end.
Proof.
  pose proof (Pg_checkInventory_resources env w) as Hres. unfold wp in Hres.
  unfold Pg.main, try_catch, process_exit, modify, Pg.pool_end.
  unfold mbind at 1, M_bind at 1.
  destruct (Pg.checkInventory env w) as [[[]|e] w1]; cbn [fst snd] in Hres;
    destruct Hres as (Hexit & _ & _ & Hnormal).
  - destruct (Hnormal eq_refl) as [Hended _]. by cbn.
  - unfold mbind, M_bind. destruct (pool_ended w1) eqn:Hended; by cbn.
Qed.

(** X11: so a failure inside the [try] block, a rejected login or a
    table that never shows, does not end in [process.exit(1)]: the
    resources are released and [main] rejects with the error of the
    second [pool.end()]. *)
Theorem failure_inside_try_skips_exit (env : Env) (w : World) (e : JsError) :
  pool_ended w = false ->
  db_fails env (db_queries w) = false ->
  db_fails env (S (db_queries w)) = false ->
  browser_fails env Launch = false ->
  browser_fails env NewContext = false ->
  browser_fails env NewPage = false ->
  browser_fails env Close = false ->
  (Pg.checkInventory env w).1 = Throw e ->
  Pg.main env w = (Throw PoolEndedTwice, (Pg.checkInventory env w).2)
  ∧ exit_code (Pg.main env w).2 = exit_code w.
Proof.
  intros Hpool Hq1 Hq2 Hlaunch Hcontext Hpage Hclose Hthrow.
  assert (pool_ended (Pg.checkInventory env w).2 = true) as Hended.
  { rewrite Pg_checkInventory_enters_try by done.
    by apply Pg_try_block_releases. }
  pose proof (Pg_checkInventory_resources env w) as (Hexit & _). unfold wp in Hexit.
  assert (Pg.main env w = (Throw PoolEndedTwice, (Pg.checkInventory env w).2))
    as Hmain.
  { unfold Pg.main, try_catch. rewrite bind_eq.
    destruct (Pg.checkInventory env w) as [r w1]. cbn [fst snd] in *. subst r.
    rewrite bind_eq. unfold Pg.pool_end. by rewrite Hended. }
  split; [done|]. by rewrite Hmain.
Qed.

Lemma failure_inside_try_skips_exit_witness :
  let env :=
    mkEnv (fun _ => false) (js "https://backoffice.loyverse.com/login")
          [] (fun _ => false) Sample.nodemailer_module false WriteOk in
  (Pg.checkInventory env Sample.fresh).1 = Throw LoginFailed
  ∧ Pg.main env Sample.fresh = (Throw PoolEndedTwice, (Pg.checkInventory env Sample.fresh).2)
  ∧ exit_code (Pg.main env Sample.fresh).2 = exit_code Sample.fresh.
Proof.
  cbn zeta.
  assert ((Pg.checkInventory
             (mkEnv (fun _ => false) (js "https://backoffice.loyverse.com/login")
                    [] (fun _ => false) Sample.nodemailer_module false WriteOk)
             Sample.fresh).1 = Throw LoginFailed) as Hthrow by by vm_compute.
  split; [exact Hthrow|].
  apply (failure_inside_try_skips_exit
           (mkEnv (fun _ => false) (js "https://backoffice.loyverse.com/login")
                  [] (fun _ => false) Sample.nodemailer_module false WriteOk)
           Sample.fresh LoginFailed); reflexivity.
Defined.

(** ** Records and the schema *)

Lemma insert_extracted (env : Env) (page : list Row) (e : Entry)
    (rows0 : list DbRow) (w : World) :
  e ∈ Pg.extract page ->
  table w = Some rows0 -> pool_ended w = false ->
  db_fails env (db_queries w) = false ->
  Pg.pool_query (Pg.insert e) env w
  = (Normal tt,
     set_table (Some (rows0 ++ [{| row_entry := e; saved_at := db_clock w |}])) (tick w)).
Proof.
  intros (cells & ts & it & re & qu & lo & _ & _ & -> & _)%Pg_extract_populated
    Htable Hpool Hq.
  unfold Pg.pool_query, Pg.insert. by rewrite Hpool, Hq, Htable.
Qed.

Lemma saveState_extracted (env : Env) (page : list Row)
    (entries : list Entry) (rows0 : list DbRow) (w : World) :
  table w = Some rows0 -> pool_ended w = false ->
  (∀ n, db_fails env n = false) ->
  (∀ e, e ∈ entries -> e ∈ Pg.extract page) ->
  ∃ w' rows, Pg.saveState entries env w = (Normal tt, w')
             ∧ table w' = Some (rows0 ++ rows)
             ∧ row_entry <$> rows = entries
             ∧ pool_ended w' = false.
Proof.
  intros Htable Hpool Hcalm. revert rows0 w Htable Hpool.
  induction entries as [|e entries IH]; intros rows0 w Htable Hpool Hextracted.
  { exists w, []. by rewrite app_nil_r. }
  cbn [Pg.saveState]. rewrite bind_eq.
  rewrite (insert_extracted env page e rows0) by (try done; apply Hextracted; left).
  destruct (IH (rows0 ++ [{| row_entry := e; saved_at := db_clock w |}])
              (set_table (Some (rows0 ++ [{| row_entry := e; saved_at := db_clock w |}]))
                         (tick w))) as (w' & rows & Hrun & Htable' & Hrows & Hpool');
    [done|done| |].
  { intros e' He'. apply Hextracted. by right. }
  exists w', ({| row_entry := e; saved_at := db_clock w |} :: rows).
  split; [done|]. split; [by rewrite Htable', <- app_assoc|].
  split; [by rewrite fmap_cons, Hrows|done].
Qed.

Lemma saveState_app (env : Env) (l1 l2 : list Entry) (w : World) :
  Pg.saveState (l1 ++ l2) env w = (Pg.saveState l1;; Pg.saveState l2) env w.
Proof.
  revert w. induction l1 as [|e l1 IH]; intros w; [done|].
  cbn [app Pg.saveState]. rewrite !bind_eq.
  destruct (Pg.pool_query (Pg.insert e) env w) as [[[]|err] w1]; [|done].
  by rewrite IH, bind_eq.
Qed.



(** X13: a record without timestamp or without item is refused by the
    table: [saveState] stops at it with the constraint violation, keeps
    the extracted records it inserted before it and inserts nothing
    after it. *)
Theorem record_without_key_aborts_saveState (env : Env) (page : list Row)
    (good : list Entry) (e : Entry) (rest : list Entry)
    (rows0 : list DbRow) (w : World) :
  table w = Some rows0 -> pool_ended w = false ->
  (∀ n, db_fails env n = false) ->
  (∀ g, g ∈ good -> g ∈ Pg.extract page) ->
  timestamp e ∈ [JUndefined; JNull] ∨ item e ∈ [JUndefined; JNull] ->
  ∃ w', Pg.saveState (good ++ e :: rest) env w = (Throw NotNullViolation, w')
        ∧ row_entry <$> stored_rows w' = (row_entry <$> rows0) ++ good.
Proof.
  intros Htable Hpool Hcalm Hgood Hkey.
  assert (Pg.is_null (timestamp (Pg.sql_values e))
          || Pg.is_null (item (Pg.sql_values e)) = true) as Hnull.
  { apply orb_true_iff. cbn [Pg.sql_values timestamp item].
    destruct Hkey as [Hkey|Hkey]; [left|right];
      apply elem_of_cons in Hkey as [Hkey|Hkey%list_elem_of_singleton];
      by rewrite Hkey. }
  destruct (saveState_extracted env page good rows0 w)
    as (w1 & rows & Hrun & Htable1 & Hrows & Hpool1); try done.
  rewrite saveState_app, bind_eq, Hrun.
  cbn [Pg.saveState]. rewrite bind_eq.
  unfold Pg.pool_query, Pg.insert. rewrite Hpool1, Hcalm, Htable1. cbn zeta.
  rewrite Hnull. eexists. split; [reflexivity|].
  by rewrite stored_rows_set_table, fmap_app, Hrows.
Qed.

Lemma record_without_key_aborts_saveState_witness :
  let env := Sample.calm [Sample.widget_sale_row] Sample.nodemailer_module in
  let w := set_table (Some []) Sample.fresh in
  let e := mkEntry JUndefined (Sample.text "Widget") JUndefined JUndefined JUndefined in
  ∃ w', Pg.saveState ([Sample.widget_sale] ++ e :: [Sample.gadget_receive]) env w
        = (Throw NotNullViolation, w')
        ∧ row_entry <$> stored_rows w' = (row_entry <$> []) ++ [Sample.widget_sale].
Proof.
  cbn zeta.
  apply (record_without_key_aborts_saveState
           (Sample.calm [Sample.widget_sale_row] Sample.nodemailer_module)
           [Sample.widget_sale_row] [Sample.widget_sale]
           (mkEntry JUndefined (Sample.text "Widget") JUndefined JUndefined JUndefined)
           [Sample.gadget_receive] [] (set_table (Some []) Sample.fresh));
    try reflexivity.
  - intros g Hg%list_elem_of_singleton. subst g. vm_compute. left.
  - left. left.
Defined.

(** ** Saving and reading back *)










(** ** What a completed run has done *)



(** X16: a file-backed run that completes has sent one mail that lists
    exactly the new records, none when nothing was new, and has left in
    the state file the first twenty extracted records; so the next run
    on the same page reports again exactly the records past the
    twentieth whose key is not among the first twenty, and nothing when
    the page has twenty records or fewer. *)
Theorem completed_file_run (env : Env) (w w' : World) :
  FileVariant.checkInventory env w = (Normal tt, w') ->
  fs_read_fails env = false ->
  let latestEntries := FileVariant.extract (page_rows env) in
  (∃ new, file_detected env w = Some new
          ∧ outbox w' = outbox w ++ (if decide (new = []) then [] else [file_alert new]))
  ∧ state_file w' = FileJson (JsonArray (take 20 latestEntries))
  ∧ file_detected env w'
    = Some (newEntries (drop 20 latestEntries) (take 20 latestEntries))
  ∧ (length latestEntries ≤ 20 -> file_detected env w' = Some []).
Proof.
  intros Hrun Hread. cbn zeta.
  pose proof (File_checkInventory_spec env w) as Hspec. unfold wp in Hspec.
  rewrite Hrun in Hspec. cbn [fst snd] in Hspec.
  destruct Hspec as [(_ & _ & e & He)|(new & Hnew & Hout & _ & Hwrite)]; [done|].
  assert (state_file w'
          = FileJson (JsonArray (take 20 (FileVariant.extract (page_rows env)))))
    as Hstate.
  { destruct (fs_write env); [done|..]; by destruct Hwrite as [_ [e He]]. }
  assert (file_detected env w'
          = Some (newEntries (drop 20 (FileVariant.extract (page_rows env)))
                             (take 20 (FileVariant.extract (page_rows env)))))
    as Hnext.
  { unfold file_detected, loaded. rewrite Hread, Hstate. f_equal.
    rewrite <- (take_drop 20 (FileVariant.extract (page_rows env))) at 1.
    unfold newEntries. rewrite List.filter_app.
    fold (newEntries (take 20 (FileVariant.extract (page_rows env)))
                     (take 20 (FileVariant.extract (page_rows env)))).
    by rewrite (proj2 (newEntries_nil_iff _ _)). }
  split; [by exists new|]. split; [done|]. split; [done|].
  intros Hlen. rewrite Hnext, drop_ge by done. done.
Qed.

Lemma completed_file_run_witness :
  let env := Sample.calm [Sample.widget_sale_row] Sample.nodemailer_with_createTransporter in
  let w' := (FileVariant.checkInventory env Sample.fresh).2 in
  FileVariant.checkInventory env Sample.fresh = (Normal tt, w')
  ∧ fs_read_fails env = false
  ∧ file_detected env w' = Some [].
Proof.
  cbn zeta.
  assert (FileVariant.checkInventory
            (Sample.calm [Sample.widget_sale_row] Sample.nodemailer_with_createTransporter)
            Sample.fresh
          = (Normal tt,
             (FileVariant.checkInventory
                (Sample.calm [Sample.widget_sale_row]
                             Sample.nodemailer_with_createTransporter)
                Sample.fresh).2)) as Hrun by by vm_compute.
  split; [exact Hrun|]. split; [reflexivity|].
  apply (completed_file_run _ _ _ Hrun eq_refl). vm_compute. lia.
Defined.


(** ** Browsers left open *)

Lemma wp_browser_call_cases (env : Env) (op : BrowserOp) (w : World)
    (Q : Completion unit -> World -> Prop) :
  (browser_fails env op = true -> Q (Throw (BrowserError op)) w) ->
  (browser_fails env op = false -> Q (Normal tt) w) ->
  wp (browser_call op) env w Q.
Proof. unfold wp, browser_call. destruct (browser_fails env op); auto. Qed.

Lemma File_checkInventory_browsers (env : Env) (w : World) :
  wp FileVariant.checkInventory env w (fun r w' =>
    match r with
    | Normal _ => open_browsers w' = open_browsers w
    | Throw _ =>
        open_browsers w'
        = if browser_fails env Launch then open_browsers w else S (open_browsers w)
    end).
Proof.
  unfold FileVariant.checkInventory, launch, close.
  wp_step. wp_step.
  apply wp_browser_call_cases; intros Hlaunch; rewrite Hlaunch; [done|].
  wp_step.
  do 9 (wp_step; wp_step; [done|]).
  wp_step. wp_step. wp_step.
  unfold wp at 1. rewrite load_previous_eq. cbn [fst snd].
  wp_step. unfold wp at 1. rewrite find_new_eq. cbn [fst snd].
  destruct (match loaded env _ with JsonArray _ => _ | JsonOther => _ end)
    as [new|e]; [|done].
  assert (∀ w2 : World,
    open_browsers w2 = S (open_browsers w) ->
    wp (FileVariant.write_state (take 20 (FileVariant.extract (page_rows env)));;
        browser_call Close;;
        modify (fun w => set_open_browsers (pred (open_browsers w)) w)) env w2
       (fun r w' =>
          match r with
          | Normal _ => open_browsers w' = open_browsers w
          | Throw _ => open_browsers w' = S (open_browsers w)
          end)) as Hwrite.
  { intros w2 Hopen. wp_step.
    unfold wp at 1, FileVariant.write_state.
    destruct (fs_write env); cbn [fst snd]; [|done..].
    wp_step. wp_step; [done|]. wp_step.
    cbn [set_open_browsers set_state_file open_browsers]. by rewrite Hopen. }
  wp_step.
  destruct (0 <? length new); [|wp_step; by apply Hwrite].
  eapply wp_mono; [|apply File_sendEmail_spec].
  intros r w2. cbn beta.
  destruct (nodemailer env !! "createTransporter") as [t|].
  2:{ by intros [-> ->]. }
  intros [[[-> _]|[[e ->] _]] [_ Hopen]]; [|done].
  by apply Hwrite.
Qed.

(** X17: the file-backed run closes its browser only at its very end:
    a run that completes leaves no browser of its own open, and every
    run that fails after the launch, at whatever step, leaves its
    browser open. *)
Theorem file_run_leaks_browser_on_failure (env : Env) (w : World) :
  let '(r, w') := FileVariant.checkInventory env w in
  (r = Normal tt -> open_browsers w' = open_browsers w)
  ∧ (∀ e, r = Throw e -> browser_fails env Launch = false ->
       open_browsers w' = S (open_browsers w)).
Proof.
  pose proof (File_checkInventory_browsers env w) as Hspec. unfold wp in Hspec.
  destruct (FileVariant.checkInventory env w) as [[[]|e] w']; cbn [fst snd] in Hspec.
  - split; [done|]. by intros e.
  - split; [done|]. intros e' _ Hlaunch. by rewrite Hlaunch in Hspec.
Qed.

(** X18: with the schema statements accepted and the browser launched,
    the table-backed run leaves its browser open exactly when
    [newContext], [newPage] or [close] fails. *)
Theorem Pg_run_leaks_browser_exactly_when (env : Env) (w : World) :
  pool_ended w = false ->
  db_fails env (db_queries w) = false ->
  db_fails env (S (db_queries w)) = false ->
  browser_fails env Launch = false ->
  open_browsers (Pg.checkInventory env w).2
  = if browser_fails env NewContext || browser_fails env NewPage
       || browser_fails env Close
    then S (open_browsers w) else open_browsers w.
Proof.
  intros Hpool Hq1 Hq2 Hlaunch.
  destruct (browser_fails env NewContext) eqn:Hcontext.
  { unfold Pg.checkInventory, launch.
    rewrite bind_eq, initDatabase_ok by done.
    rewrite bind_eq, bind_eq, browser_call_ok by done.
    unfold modify at 1. rewrite bind_eq.
    unfold browser_call at 1. by rewrite Hcontext. }
  destruct (browser_fails env NewPage) eqn:Hpage.
  { unfold Pg.checkInventory, launch.
    rewrite bind_eq, initDatabase_ok by done.
    rewrite bind_eq, bind_eq, browser_call_ok by done.
    unfold modify at 1. rewrite bind_eq, browser_call_ok by done.
    rewrite bind_eq. unfold browser_call at 1. by rewrite Hpage. }
  destruct (browser_fails env Close) eqn:Hclose; cbn [orb].
  2:{ rewrite Pg_checkInventory_enters_try by done.
      by apply Pg_try_block_releases. }
  rewrite Pg_checkInventory_enters_try by done.
  pose proof (monitor_keeps_resources env
    (set_open_browsers (S (open_browsers w))
       (set_table (Some (stored_rows w)) (tick (tick w))))) as Hkeeps.
  unfold wp in Hkeeps. unfold try_finally, close.
  destruct (Pg.monitor env _) as [r w1]. cbn [fst snd] in Hkeeps.
  destruct Hkeeps as [Hopen _].
  rewrite bind_eq, bind_eq. unfold browser_call. rewrite Hclose.
  by cbn [snd].
Qed.

Lemma Pg_run_leaks_browser_exactly_when_witness :
  let env :=
    mkEnv (fun op => match op with Close => true | _ => false end)
          Sample.dashboard_url [] (fun _ => false) Sample.nodemailer_module false WriteOk in
  open_browsers (Pg.checkInventory env Sample.fresh).2 = S (open_browsers Sample.fresh).
Proof.
  cbn zeta.
  apply (Pg_run_leaks_browser_exactly_when
           (mkEnv (fun op => match op with Close => true | _ => false end)
                  Sample.dashboard_url [] (fun _ => false) Sample.nodemailer_module
                  false WriteOk)
           Sample.fresh); reflexivity.
Defined.

(** ** The body of the mail *)

Lemma occurs_in_refl (s : jsstring) : occurs_in s s.
Proof. exists [], []. by rewrite app_nil_r. Qed.

Lemma occurs_in_trans (a b c : jsstring) :
  occurs_in a b -> occurs_in b c -> occurs_in a c.
Proof.
  intros (pre1 & post1 & ->) (pre2 & post2 & ->).
  exists (pre2 ++ pre1), (post1 ++ post2). by rewrite <- !app_assoc.
Qed.

Lemma occurs_in_concat (part : jsstring) (parts : list jsstring) :
  part ∈ parts -> occurs_in part (concat parts).
Proof.
  intros (l1 & l2 & ->)%list_elem_of_split.
  exists (concat l1), (concat l2). by rewrite concat_app, concat_cons.
Qed.

Lemma html_row_occurs (entries : list Entry) (e : Entry) :
  e ∈ entries -> occurs_in (html_row e) (html entries).
Proof.
  intros He. apply occurs_in_trans with (concat (html_row <$> entries)).
  - apply occurs_in_concat. by apply list_elem_of_fmap_2.
  - apply occurs_in_concat. unfold html_parts. set_solver.
Qed.

(** X19: the file-backed mail shows the fields as they are.  For every
    record of the new set the text of each of its five fields occurs in
    the HTML body character for character, mark-up characters included,
    and a field that was never there occurs as the word [undefined]. *)
Theorem html_shows_fields_verbatim (entries : list Entry) (e : Entry) (field : jsval) :
  e ∈ entries ->
  field ∈ [timestamp e; item e; reason e; quantity e; location e] ->
  includes (to_text field) (html entries) = true
  ∧ (field = JUndefined -> includes (js "undefined") (html entries) = true).
Proof.
  intros He Hfield.
  assert (includes (to_text field) (html entries) = true) as Hshown.
  { apply includes_infix. change (occurs_in (to_text field) (html entries)).
    apply occurs_in_trans with (html_row e); [|by apply html_row_occurs].
    apply occurs_in_concat. unfold html_row_parts.
    repeat (apply elem_of_cons in Hfield as [->|Hfield]; [set_solver|]).
    by apply elem_of_nil in Hfield. }
  split; [done|]. by intros ->.
Qed.

Lemma html_shows_fields_verbatim_witness :
  let e := mkEntry (Sample.text "01 May") (Sample.text "<b>Widget</b>")
                   JUndefined JUndefined JUndefined in
  e ∈ [Sample.widget_sale; e]
  ∧ item e ∈ [timestamp e; item e; reason e; quantity e; location e]
  ∧ includes (js "<b>Widget</b>") (html [Sample.widget_sale; e]) = true.
Proof.
  cbn zeta.
  assert (mkEntry (Sample.text "01 May") (Sample.text "<b>Widget</b>")
                  JUndefined JUndefined JUndefined
          ∈ [Sample.widget_sale;
             mkEntry (Sample.text "01 May") (Sample.text "<b>Widget</b>")
                     JUndefined JUndefined JUndefined]) as He by (right; left).
  assert (Sample.text "<b>Widget</b>"
          ∈ [Sample.text "01 May"; Sample.text "<b>Widget</b>";
             JUndefined; JUndefined; JUndefined]) as Hfield by (right; left).
  split; [exact He|]. split; [exact Hfield|].
  exact (proj1 (html_shows_fields_verbatim _ _ _ He Hfield)).
Defined.
